(** * hh-analyzer-bot: the analytics engine of [src/analytics.py]

    A shallow embedding of the statistics functions that [analyze_vacancies]
    assembles, followed by the properties the specification states about
    them.

    Conventions of the embedding.
    - A listing is the Python [dict] the code reads with [v.get(...)]; only
      the six keys the code reads are kept, as a record.
    - The polymorphic fields (experience, employer, employment, schedule,
      snippet) are a tagged value [field]: absent, a bare string, or a nested
      object.  [Absent] stands for a missing key, [None], and any value that
      is neither [str] nor [dict]: each analyser sends all of these down the
      same branch.
    - A nested object is an association list from attribute names to
      string-or-null values ([None] is JSON [null]); an empty object is
      falsy, as in Python.
    - The salary field is [None] (a missing key, [None] or an empty object,
      all falsy) or an object with the keys the code reads: the bounds
      [from] and [to], Python [int]s ([Z]) or absent, and the currency code,
      a string or absent.  [(a + b) / 2] is true division: its result is kept
      as the exact rational [(a + b) # 2], which is the double Python
      computes whenever the sum is below 2^53 in magnitude.  [np.mean] and
      [np.median] are kept exact in the same way; the properties that state
      what these values are carry the range on which the doubles are exact.
    - [str.lower], [str.upper], [str.strip] and [str.isdigit] are modelled
      on UTF-8 text over ASCII and the Cyrillic letters U+0400-U+045F; the
      properties that state what they return are about such text.
    - [collections.Counter] is an association list in insertion order (the
      order of a Python dict); [most_common] is the stable descending sort
      by count that [sorted(..., reverse=True)] and [heapq.nlargest]
      implement. *)

From Stdlib Require Import ZArith QArith List String Ascii Bool Arith Lia Lqa.
From Stdlib Require Import Permutation Sorted DecimalString.
Import ListNotations.
Close Scope Q_scope.
Open Scope string_scope.
Open Scope list_scope.
Open Scope nat_scope.

(** ** Python values *)

Definition attrs := list (string * option string).

Inductive field :=
| Absent
| Bare (s : string)
| Nested (o : attrs).

Record salary_obj := mk_salary {
  s_from : option Z;
  s_to : option Z;
  s_currency : option string
}.

Record vacancy := mk_vacancy {
  salary : option salary_obj;
  experience : field;
  employer : field;
  employment : field;
  schedule : field;
  snippet : field
}.

(** A label used as a Counter key: a Python [str], or [None]. *)
Definition label := option string.

Definition label_eqb (a b : label) : bool :=
  match a, b with
  | Some x, Some y => String.eqb x y
  | None, None => true
  | _, _ => false
  end.

(** [d.get(key)] on a dict kept as an association list. *)
Fixpoint dict_get {V : Type} (d : list (string * V)) (key : string) : option V :=
  match d with
  | [] => None
  | (k, v) :: rest => if String.eqb k key then Some v else dict_get rest key
  end.

(** [d.get(key, default)]. *)
Definition get_or {V : Type} (d : list (string * V)) (key : string) (default : V) : V :=
  match dict_get d key with
  | Some v => v
  | None => default
  end.

(** [x and isinstance(x, dict)]: a non-empty nested object. *)
Definition truthy_dict (x : field) : option attrs :=
  match x with
  | Nested ((_ :: _) as o) => Some o
  | _ => None
  end.

(** [x and isinstance(x, str)]: a non-empty bare string. *)
Definition truthy_str (x : field) : option string :=
  match x with
  | Bare ((String _ _) as s) => Some s
  | _ => None
  end.

(** Truthiness of an int-or-None: [None] and [0] are falsy. *)
Definition truthy_int (x : option Z) : option Z :=
  match x with
  | Some n => if (n =? 0)%Z then None else Some n
  | None => None
  end.

(** ** collections.Counter *)

Section Counter.
Context {K : Type} (eqb : K -> K -> bool).

Definition Counter := list (K * nat).

(** [c[k] += 1]: an existing key keeps its place, a new key goes last. *)
Fixpoint incr (k : K) (c : Counter) : Counter :=
  match c with
  | [] => [(k, 1)]
  | (k', n) :: rest =>
      if eqb k k' then (k', S n) :: rest else (k', n) :: incr k rest
  end.

(** [c[k]], zero for a key that was never counted. *)
Fixpoint counter_get (k : K) (c : Counter) : nat :=
  match c with
  | [] => 0
  | (k', n) :: rest => if eqb k k' then n else counter_get k rest
  end.

(** The counter after [c[k] += 1] for each [k] of [ks], in order. *)
Definition count_all (ks : list K) (c : Counter) : Counter :=
  fold_left (fun acc k => incr k acc) ks c.

(** One step of the stable descending sort: [e] is older than every entry of
    [sorted], so it goes before the first entry whose count is not larger. *)
Fixpoint insert_desc (e : K * nat) (sorted : Counter) : Counter :=
  match sorted with
  | [] => [e]
  | e' :: rest =>
      if snd e <? snd e' then e' :: insert_desc e rest else e :: sorted
  end.

(** [c.most_common()]: [sorted(c.items(), key=itemgetter(1), reverse=True)]. *)
Definition most_common (c : Counter) : Counter :=
  fold_right insert_desc [] c.

(** [c.most_common(n)]: [heapq.nlargest(n, c.items(), key=itemgetter(1))]. *)
Definition most_common_n (n : nat) (c : Counter) : Counter :=
  firstn n (most_common c).

(** Position of the first occurrence of [k] in [ks] ([length ks] if none). *)
Fixpoint first_seen (k : K) (ks : list K) : nat :=
  match ks with
  | [] => 0
  | k' :: rest => if eqb k k' then 0 else S (first_seen k rest)
  end.

End Counter.

Definition total_count {K : Type} (c : list (K * nat)) : nat :=
  fold_right (fun e acc => snd e + acc) 0 c.

(** ** Numbers *)

(** [int(x)] on a float: truncation towards zero. *)
Definition py_int (x : Q) : Z := Z.quot (Qnum x) (Zpos (Qden x)).

Definition Qltb (x y : Q) : bool := (Qnum x * QDen y <? Qnum y * QDen x)%Z.

(** [min(xs)] and [max(xs)] of a non-empty list [x :: xs]. *)
Definition py_min (x : Q) (xs : list Q) : Q :=
  fold_left (fun m y => if Qltb y m then y else m) xs x.

Definition py_max (x : Q) (xs : list Q) : Q :=
  fold_left (fun m y => if Qltb m y then y else m) xs x.

Definition Qsum (xs : list Q) : Q := fold_left Qplus xs 0%Q.

(** [np.mean(xs)], as the exact mean: the double numpy returns truncates to
    the same integer as long as the sums stay exact in doubles. *)
Definition np_mean (xs : list Q) : Q :=
  (Qsum xs / inject_Z (Z.of_nat (List.length xs)))%Q.

Fixpoint insert_asc (x : Q) (sorted : list Q) : list Q :=
  match sorted with
  | [] => [x]
  | y :: rest => if Qltb y x then y :: insert_asc x rest else x :: sorted
  end.

Definition sort_asc (xs : list Q) : list Q := fold_right insert_asc [] xs.

(** [np.median(xs)]: the middle of the sorted sample, or the mean of the two
    middle values when the size is even; exact, as [np_mean] is. *)
Definition np_median (xs : list Q) : Q :=
  let sorted := sort_asc xs in
  let n := List.length xs in
  if Nat.even n
  then ((nth (n / 2 - 1) sorted 0 + nth (n / 2) sorted 0) / 2)%Q
  else nth (n / 2) sorted 0%Q.

(** ** Salary analysis *)

Definition unspecified : string := "Не указано".

Definition exp_map : list (string * string) :=
  [ ("noExperience", "Без опыта");
    ("between1And3", "1-3 года");
    ("between3And6", "3-6 лет");
    ("moreThan6", "6+ лет") ].

(** [salary.get("currency", "RUR")]. *)
Definition currency_of (sal : salary_obj) : string :=
  match s_currency sal with
  | Some c => c
  | None => "RUR"
  end.

(** [x * rate if x else None]. *)
Definition times (rate : Z) (x : option Z) : option Z :=
  match truthy_int x with
  | Some n => Some (n * rate)%Z
  | None => None
  end.

(** The currency branch of both salary loops (lines 68-75 and 124-131). *)
Definition convert (currency : string) (from_val to_val : option Z)
  : option Z * option Z :=
  if String.eqb currency "USD" then
    let rate := 90%Z in (times rate from_val, times rate to_val)
  else if String.eqb currency "EUR" then
    let rate := 100%Z in (times rate from_val, times rate to_val)
  else (from_val, to_val).

(** The range branch of both salary loops (lines 78-85 and 139-144): the
    value appended to the sample, or nothing. The average is the exact half
    of the sum, which is the double of the code for sums below 2^53 in
    magnitude. *)
Definition range_value (from_val to_val : option Z) : option Q :=
  match truthy_int from_val, truthy_int to_val with
  | Some f, Some t => Some ((f + t) # 2)%Q
  | Some f, None => Some (inject_Z f)
  | None, Some t => Some (inject_Z t)
  | None, None => None
  end.

(** [get_salary_distribution]: the body of the loop, then the loop. *)
Definition dist_init : list (string * nat) :=
  [ ("до 100к", 0); ("100-150к", 0); ("150-200к", 0); ("200-250к", 0);
    ("250-300к", 0); ("300-400к", 0); ("400к+", 0) ].

Definition bucket_of (s : Q) : string :=
  if Qltb s 100000 then "до 100к"
  else if Qltb s 150000 then "100-150к"
  else if Qltb s 200000 then "150-200к"
  else if Qltb s 250000 then "200-250к"
  else if Qltb s 300000 then "250-300к"
  else if Qltb s 400000 then "300-400к"
  else "400к+".

Definition get_salary_distribution (salaries : list Q) : list (string * nat) :=
  fold_left (fun dist s => incr String.eqb (bucket_of s) dist) salaries dist_init.

(** The four accumulators of [analyze_salaries]. *)
Record salary_acc := mk_acc {
  salaries : list Q;
  salary_from_list : list Z;
  salary_to_list : list Z;
  currency_stats : list (string * nat)
}.

Definition salary_acc_init : salary_acc := mk_acc [] [] [] [].

Definition append_if {A : Type} (x : option A) (l : list A) : list A :=
  match x with
  | Some a => l ++ [a]
  | None => l
  end.

(** One iteration of the loop of [analyze_salaries]. *)
Definition salary_step (acc : salary_acc) (v : vacancy) : salary_acc :=
  match salary v with
  | Some sal =>
      let currency := currency_of sal in
      let (from_val, to_val) := convert currency (s_from sal) (s_to sal) in
      mk_acc
        (append_if (range_value from_val to_val) (salaries acc))
        (append_if (truthy_int from_val) (salary_from_list acc))
        (append_if (truthy_int to_val) (salary_to_list acc))
        (incr String.eqb currency (currency_stats acc))
  | None => acc
  end.

Definition collect_salaries (vacancies : list vacancy) : salary_acc :=
  fold_left salary_step vacancies salary_acc_init.

Record SalaryStats := mk_stats {
  count : nat;
  min_salary : Z;
  max_salary : Z;
  avg : Z;
  median : Z;
  from_avg : option Z;
  to_avg : option Z;
  distribution : list (string * nat);
  currencies : list (string * nat)
}.

Inductive salary_result :=
| Unavailable (message : string)
| Available (stats : SalaryStats).

Definition mean_of_ints (xs : list Z) : option Z :=
  match xs with
  | [] => None
  | _ => Some (py_int (np_mean (map inject_Z xs)))
  end.

Definition analyze_salaries (vacancies : list vacancy) : salary_result :=
  let acc := collect_salaries vacancies in
  match salaries acc with
  | [] => Unavailable "Зарплаты не указаны"
  | s :: rest =>
      Available (mk_stats
        (List.length (salaries acc))
        (py_int (py_min s rest))
        (py_int (py_max s rest))
        (py_int (np_mean (salaries acc)))
        (py_int (np_median (salaries acc)))
        (mean_of_ints (salary_from_list acc))
        (mean_of_ints (salary_to_list acc))
        (get_salary_distribution (salaries acc))
        (most_common_n 5 (currency_stats acc)))
  end.

(** ** Salary by experience *)

Definition salary_by_exp_init : list (string * list Q) :=
  [ ("Без опыта", []); ("1-3 года", []); ("3-6 лет", []); ("6+ лет", []);
    (unspecified, []) ].

(** The tier name computed at the top of the loop of
    [analyze_salary_by_experience] (lines 50-58). *)
Definition tier_name (v : vacancy) : string :=
  let exp_data := experience v in
  let exp_id : label :=
    match truthy_dict exp_data, truthy_str exp_data with
    | Some o, _ => get_or o "id" (Some unspecified)
    | None, Some s => Some s
    | None, None => Some unspecified
    end in
  match exp_id with
  | Some code => get_or exp_map code unspecified
  | None => unspecified
  end.

(** [d[key].append(x)]; a key that is not in [d] is a KeyError in Python and
    cannot occur here, [tier_name] being one of the five keys. *)
Fixpoint dict_append (d : list (string * list Q)) (key : string) (x : Q)
  : list (string * list Q) :=
  match d with
  | [] => []
  | (k, l) :: rest =>
      if String.eqb k key then (k, l ++ [x]) :: rest
      else (k, l) :: dict_append rest key x
  end.

(** One iteration of the loop of [analyze_salary_by_experience]. *)
Definition tier_step (salary_by_exp : list (string * list Q)) (v : vacancy)
  : list (string * list Q) :=
  let exp_name := tier_name v in
  match salary v with
  | Some sal =>
      let currency := currency_of sal in
      let (from_val, to_val) := convert currency (s_from sal) (s_to sal) in
      match range_value from_val to_val with
      | Some avg => dict_append salary_by_exp exp_name avg
      | None => salary_by_exp
      end
  | None => salary_by_exp
  end.

Definition group_salaries (vacancies : list vacancy) : list (string * list Q) :=
  fold_left tier_step vacancies salary_by_exp_init.

(** The sample of one tier ([[]] for a name that is not a key). *)
Definition tier_sample (name : string) (d : list (string * list Q)) : list Q :=
  get_or d name [].

Record TierStats := mk_tier {
  tier_count : nat;
  tier_min : Z;
  tier_max : Z;
  tier_avg : Z;
  tier_median : Z
}.

Definition tier_entry (e : string * list Q) : list (string * TierStats) :=
  match snd e with
  | [] => []
  | s :: rest =>
      [ (fst e,
         mk_tier (List.length (snd e)) (py_int (py_min s rest))
           (py_int (py_max s rest)) (py_int (np_mean (snd e)))
           (py_int (np_median (snd e)))) ]
  end.

Definition analyze_salary_by_experience (vacancies : list vacancy)
  : list (string * TierStats) :=
  flat_map tier_entry (group_salaries vacancies).

(** ** Categories *)

(** The [name] that [analyze_companies] counts for a listing. *)
Definition employer_name (v : vacancy) : label :=
  let employer := employer v in
  match truthy_dict employer, truthy_str employer with
  | Some o, _ => get_or o "name" (Some unspecified)
  | None, Some s => Some s
  | None, None => Some unspecified
  end.

Definition companies_counter (vacancies : list vacancy) : list (label * nat) :=
  fold_left (fun companies v => incr label_eqb (employer_name v) companies)
    vacancies [].

Record CompanyStats := mk_companies {
  unique : nat;
  top_20 : list (label * nat)
}.

Definition analyze_companies (vacancies : list vacancy) : CompanyStats :=
  let companies := companies_counter vacancies in
  mk_companies (List.length companies) (most_common_n 20 companies).

(** The [exp_name] that [analyze_experience] counts for a listing. *)
Definition experience_name (v : vacancy) : label :=
  let exp_data := experience v in
  let exp : label :=
    match truthy_dict exp_data, truthy_str exp_data with
    | Some o, _ => get_or o "id" (Some unspecified)
    | None, Some s => Some s
    | None, None => Some unspecified
    end in
  match exp with
  | Some code => Some (get_or exp_map code code)
  | None => None
  end.

Definition experience_counter (vacancies : list vacancy) : list (label * nat) :=
  fold_left (fun experience v => incr label_eqb (experience_name v) experience)
    vacancies [].

Definition analyze_experience (vacancies : list vacancy) : list (label * nat) :=
  most_common (experience_counter vacancies).

Definition emp_map : list (string * string) :=
  [ ("full", "Полная занятость");
    ("part", "Частичная занятость");
    ("project", "Проектная работа");
    ("volunteer", "Волонтёрство");
    ("probation", "Стажировка") ].

(** The [emp_name] that [analyze_employment] counts for a listing, if any. *)
Definition employment_name (v : vacancy) : option label :=
  let emp := employment v in
  match truthy_dict emp, truthy_str emp with
  | Some o, _ =>
      let default := get_or o "name" (Some unspecified) in
      Some match get_or o "id" None with
           | Some code =>
               match dict_get emp_map code with
               | Some name => Some name
               | None => default
               end
           | None => default
           end
  | None, Some s => Some (Some (get_or emp_map s s))
  | None, None => None
  end.

Definition count_optional (c : list (label * nat)) (name : option label)
  : list (label * nat) :=
  match name with
  | Some l => incr label_eqb l c
  | None => c
  end.

Definition employment_counter (vacancies : list vacancy) : list (label * nat) :=
  fold_left (fun employment v => count_optional employment (employment_name v))
    vacancies [].

Definition analyze_employment (vacancies : list vacancy) : list (label * nat) :=
  most_common (employment_counter vacancies).

(** The key that [analyze_schedule] counts for a listing, if any. *)
Definition schedule_name (v : vacancy) : option label :=
  let sched := schedule v in
  match truthy_dict sched, truthy_str sched with
  | Some o, _ => Some (get_or o "name" (Some unspecified))
  | None, Some s => Some (Some s)
  | None, None => None
  end.

Definition schedule_counter (vacancies : list vacancy) : list (label * nat) :=
  fold_left (fun schedule v => count_optional schedule (schedule_name v))
    vacancies [].

Definition analyze_schedule (vacancies : list vacancy) : list (label * nat) :=
  most_common (schedule_counter vacancies).

(** ** Skills *)

(** [str.lower] and [str.upper] on UTF-8 text, for the Latin and Cyrillic
    letters the vocabulary and the listings are written in (A-Z, and
    U+0400-U+042F against U+0430-U+045F); other code points are left as they
    are. *)
Fixpoint lower (s : string) : string :=
  match s with
  | EmptyString => EmptyString
  | String c rest =>
      let n := N_of_ascii c in
      if ((65 <=? n) && (n <=? 90))%N then String (ascii_of_N (n + 32)) (lower rest)
      else if (n =? 208)%N then
        match rest with
        | EmptyString => String c EmptyString
        | String d rest' =>
            let m := N_of_ascii d in
            if ((128 <=? m) && (m <=? 143))%N
            then String (ascii_of_N 209) (String (ascii_of_N (m + 16)) (lower rest'))
            else if ((144 <=? m) && (m <=? 159))%N
            then String c (String (ascii_of_N (m + 32)) (lower rest'))
            else if ((160 <=? m) && (m <=? 175))%N
            then String (ascii_of_N 209) (String (ascii_of_N (m - 32)) (lower rest'))
            else String c (String d (lower rest'))
        end
      else String c (lower rest)
  end.

Fixpoint upper (s : string) : string :=
  match s with
  | EmptyString => EmptyString
  | String c rest =>
      let n := N_of_ascii c in
      if ((97 <=? n) && (n <=? 122))%N then String (ascii_of_N (n - 32)) (upper rest)
      else if (n =? 208)%N then
        match rest with
        | EmptyString => String c EmptyString
        | String d rest' =>
            let m := N_of_ascii d in
            if ((176 <=? m) && (m <=? 191))%N
            then String c (String (ascii_of_N (m - 32)) (upper rest'))
            else String c (String d (upper rest'))
        end
      else if (n =? 209)%N then
        match rest with
        | EmptyString => String c EmptyString
        | String d rest' =>
            let m := N_of_ascii d in
            if ((128 <=? m) && (m <=? 143))%N
            then String (ascii_of_N 208) (String (ascii_of_N (m + 32)) (upper rest'))
            else if ((144 <=? m) && (m <=? 159))%N
            then String (ascii_of_N 208) (String (ascii_of_N (m - 16)) (upper rest'))
            else String c (String d (upper rest'))
        end
      else String c (upper rest)
  end.

(** [needle in hay] on strings. *)
Fixpoint contains (needle hay : string) : bool :=
  String.prefix needle hay ||
  match hay with
  | EmptyString => false
  | String _ rest => contains needle rest
  end.

Definition tech_skills : list string :=
  [ "python"; "javascript"; "typescript"; "java"; "c++"; "c#"; "go"; "rust"; "php"; "ruby";
    "react"; "vue"; "angular"; "node.js"; "django"; "flask"; "fastapi"; "spring"; "laravel";
    "sql"; "postgresql"; "mysql"; "mongodb"; "redis"; "elasticsearch"; "kafka"; "rabbitmq";
    "docker"; "kubernetes"; "aws"; "azure"; "gcp"; "linux"; "git"; "ci/cd"; "jenkins";
    "machine learning"; "ml"; "ai"; "data science"; "pytorch"; "tensorflow"; "pandas"; "numpy";
    "rest api"; "graphql"; "microservices"; "mongodb"; "postgresql"; "redis";
    "agile"; "scrum"; "kanban"; "jira"; "confluence";
    "english"; "английский"; "b2"; "c1"; "ielts" ].

(** [snippet.get(key) or ""]. *)
Definition text_of (o : attrs) (key : string) : string :=
  match get_or o key None with
  | Some s => s
  | None => ""
  end.

(** The search buffer of a snippet: both texts lower-cased, a space between. *)
Definition snippet_text (o : attrs) : string :=
  let requirement := lower (text_of o "requirement") in
  let responsibility := lower (text_of o "responsibility") in
  String.append requirement (String.append " " responsibility).

(** The inner loop of [extract_skills] over the vocabulary. *)
Definition scan_text (skills : list string) (text : string)
  (skill_counter : list (string * nat)) : list (string * nat) :=
  fold_left
    (fun counter skill =>
       if contains (lower skill) text
       then incr String.eqb (upper skill) counter
       else counter)
    skills skill_counter.

(** One iteration of the outer loop of [extract_skills]. *)
Definition skill_step (skill_counter : list (string * nat)) (v : vacancy)
  : list (string * nat) :=
  match truthy_dict (snippet v) with
  | Some o =>
      let text := snippet_text o in
      scan_text tech_skills text skill_counter
  | None => skill_counter
  end.

Definition skill_counter (vacancies : list vacancy) : list (string * nat) :=
  fold_left skill_step vacancies [].

Record SkillStats := mk_skills {
  skills_top_20 : list (string * nat);
  total_found : nat
}.

Definition extract_skills (vacancies : list vacancy) : SkillStats :=
  let counter := skill_counter vacancies in
  mk_skills (most_common_n 20 counter) (List.length counter).

(** ** Report assembly *)

Record Stats := mk_summary {
  total : nat;
  stat_salary : salary_result;
  stat_salary_by_experience : list (string * TierStats);
  stat_companies : CompanyStats;
  stat_experience : list (label * nat);
  stat_employment : list (label * nat);
  stat_schedule : list (label * nat);
  stat_skills : SkillStats
}.

Inductive summary :=
| ErrorSummary (error : string)
| Summary (stats : Stats).

(** [analyze_vacancies]; the data frame [df] is built and never read. *)
Definition analyze_vacancies (vacancies : list vacancy) : summary :=
  match vacancies with
  | [] => ErrorSummary "Вакансии не найдены"
  | _ =>
      Summary (mk_summary
        (List.length vacancies)
        (analyze_salaries vacancies)
        (analyze_salary_by_experience vacancies)
        (analyze_companies vacancies)
        (analyze_experience vacancies)
        (analyze_employment vacancies)
        (analyze_schedule vacancies)
        (extract_skills vacancies))
  end.

(** * The listing source of [src/hh_api.py]

    Conventions of the embedding.
    - The module-level dict [_cache] is threaded through the functions that
      read or write it; [datetime.utcnow()] is an argument, a time in
      microseconds, and [_cache_ttl] is 30 minutes in the same unit.
    - The HTTP exchange of [search_vacancies] is an argument: a function from
      the request parameters to what the exchange does, namely a response
      with a status (and its decoded JSON body), a time-out, or a client
      error. A body that fails to decode is left out of the model.
    - A response body is the dict the code reads: its [items], its [pages]
      and whether it has other keys (which only matters for its truthiness).
    - [str.isdigit] and [str.strip] are modelled on ASCII digits and ASCII
      white space. *)

(** A keyword argument value: [None], an [int] or a [str]. *)
Inductive pyarg :=
| ArgNone
| ArgInt (n : Z)
| ArgStr (s : string).

Definition str_of_int (n : Z) : string := NilZero.string_of_int (Z.to_int n).

(** [str(v)], which is also what [f"{v}"] prints. *)
Definition py_str (v : pyarg) : string :=
  match v with
  | ArgNone => "None"
  | ArgInt n => str_of_int n
  | ArgStr s => s
  end.

Definition arg_of_int (x : option Z) : pyarg :=
  match x with
  | Some n => ArgInt n
  | None => ArgNone
  end.

Definition arg_of_str (x : option string) : pyarg :=
  match x with
  | Some s => ArgStr s
  | None => ArgNone
  end.

(** One step of [sorted(kwargs.items())]: the keys of a dict are distinct, so
    the items are ordered by key alone. *)
Fixpoint insert_item (e : string * pyarg) (sorted : list (string * pyarg))
  : list (string * pyarg) :=
  match sorted with
  | [] => [e]
  | e' :: rest =>
      if String.leb (fst e) (fst e') then e :: sorted else e' :: insert_item e rest
  end.

Definition sorted_items (kwargs : list (string * pyarg)) : list (string * pyarg) :=
  fold_right insert_item [] kwargs.

Definition _get_cache_key (text : string) (area : option string)
  (kwargs : list (string * pyarg)) : string :=
  let key_parts :=
    [text; py_str (arg_of_str area)]
    ++ map (fun kv => String.append (fst kv) (String.append ":" (py_str (snd kv))))
         (sorted_items kwargs) in
  String.concat "|" key_parts.

(** ** The cache *)

Definition _cache_ttl : Z := 30 * 60 * 1000000.

(** [d[key] = value]: an existing key keeps its place, a new key goes last. *)
Fixpoint dict_set {V : Type} (d : list (string * V)) (key : string) (value : V)
  : list (string * V) :=
  match d with
  | [] => [(key, value)]
  | (k, v) :: rest =>
      if String.eqb k key then (k, value) :: rest
      else (k, v) :: dict_set rest key value
  end.

(** [del d[key]]. *)
Definition dict_del {V : Type} (d : list (string * V)) (key : string)
  : list (string * V) :=
  filter (fun kv => negb (String.eqb (fst kv) key)) d.

Section Cache.
Context {D : Type}.

(** [_get_from_cache(key)] at the time [now]: the data, if any, and the cache
    it leaves. *)
Definition _get_from_cache (now : Z) (key : string) (cache : list (string * (D * Z)))
  : option D * list (string * (D * Z)) :=
  match dict_get cache key with
  | Some (data, timestamp) =>
      if (now - timestamp <? _cache_ttl)%Z then (Some data, cache)
      else (None, dict_del cache key)
  | None => (None, cache)
  end.

(** [_set_cache(key, data)] at the time [now]. *)
Definition _set_cache (now : Z) (key : string) (data : D)
  (cache : list (string * (D * Z))) : list (string * (D * Z)) :=
  dict_set cache key (data, now).

End Cache.

(** ** Areas *)

Definition areas : list (string * string) :=
  [ ("москва", "1"); ("moscow", "1"); ("санкт-петербург", "2"); ("спб", "2");
    ("новосибирск", "4"); ("екатеринбург", "3"); ("казань", "88");
    ("нижний новгород", "66"); ("челябинск", "73"); ("самара", "50");
    ("омск", "68"); ("ростов-на-дону", "76"); ("уфа", "99");
    ("красноярск", "46"); ("пермь", "72"); ("воронеж", "26");
    ("волгоград", "24"); ("краснодар", "53"); ("саратов", "79");
    ("тюмень", "98"); ("тольятти", "86"); ("ижевск", "45"); ("барнаул", "17");
    ("ульяновск", "95"); ("иркутск", "42"); ("хабаровск", "39");
    ("ярославль", "104"); ("владивосток", "33"); ("махачкала", "59");
    ("томск", "90"); ("оренбург", "70"); ("кемерово", "47");
    ("новокузнецк", "64"); ("рязань", "78"); ("астрахань", "16");
    ("набережные челны", "61"); ("пенза", "71"); ("липецк", "55");
    ("киров", "49"); ("тула", "91"); ("чебоксары", "100");
    ("калининград", "22"); ("брянск", "20"); ("курск", "54");
    ("ульяновск", "95");
    ("удалённо", "113"); ("удаленная работа", "113"); ("remote", "113") ].

Definition is_space (c : ascii) : bool :=
  let n := N_of_ascii c in
  (((9 <=? n) && (n <=? 13)) || ((28 <=? n) && (n <=? 32)))%N.

Fixpoint lstrip (s : string) : string :=
  match s with
  | EmptyString => EmptyString
  | String c rest => if is_space c then lstrip rest else s
  end.

Fixpoint rstrip (s : string) : string :=
  match s with
  | EmptyString => EmptyString
  | String c rest =>
      match rstrip rest with
      | EmptyString => if is_space c then EmptyString else String c EmptyString
      | kept => String c kept
      end
  end.

(** [s.strip()], for text whose white space is ASCII. *)
Definition strip (s : string) : string := rstrip (lstrip s).

Definition is_digit (c : ascii) : bool :=
  let n := N_of_ascii c in ((48 <=? n) && (n <=? 57))%N.

Fixpoint all_digits (s : string) : bool :=
  match s with
  | EmptyString => true
  | String c rest => is_digit c && all_digits rest
  end.

(** [s.isdigit()]: a non-empty string of digits, for text whose digits are
    ASCII. *)
Definition isdigit (s : string) : bool :=
  match s with
  | EmptyString => false
  | _ => all_digits s
  end.

Definition get_area_id (city_name : string) : string :=
  let city_lower := strip (lower city_name) in
  get_or areas city_lower "1".

(** ** Searching *)

Record page_data := mk_page {
  d_items : option (list vacancy);
  d_pages : option Z;
  d_other : bool
}.

(** Truthiness of a response dict: it has a key. *)
Definition truthy_data (data : page_data) : bool :=
  match d_items data, d_pages data with
  | None, None => d_other data
  | _, _ => true
  end.

Record search_args := mk_search {
  q_text : string;
  q_area : option string;
  q_salary_from : option Z;
  q_salary_to : option Z;
  q_experience : option string;
  q_employment : option string;
  q_schedule : option string;
  q_page : Z;
  q_per_page : Z;
  q_use_cache : bool
}.

Inductive http_outcome :=
| Responded (status : Z) (data : page_data)
| TimedOut
| ConnectionFailed (error : string).

(** What a call gives: a value, or [raise Exception(message)]. *)
Inductive outcome (A : Type) :=
| Returned (a : A)
| Raised (message : string).
Arguments Returned {A} a.
Arguments Raised {A} message.

(** The key of a search: the filters are the keyword arguments. *)
Definition search_key (q : search_args) (area : option string) : string :=
  _get_cache_key (q_text q) area
    [ ("salary_from", arg_of_int (q_salary_from q));
      ("salary_to", arg_of_int (q_salary_to q));
      ("experience", arg_of_str (q_experience q));
      ("employment", arg_of_str (q_employment q));
      ("schedule", arg_of_str (q_schedule q)) ].

(** [params[name] = value] when [value] is truthy. *)
Definition add_str (name : string) (value : option string)
  (params : list (string * pyarg)) : list (string * pyarg) :=
  match value with
  | Some ((String _ _) as s) => dict_set params name (ArgStr s)
  | _ => params
  end.

Definition add_int (name : string) (value : option Z)
  (params : list (string * pyarg)) : list (string * pyarg) :=
  match truthy_int value with
  | Some n => dict_set params name (ArgInt n)
  | None => params
  end.

(** The area that is sent: a name that is not a number is resolved. *)
Definition resolved_area (area : option string) : option string :=
  match area with
  | Some ((String _ _) as name) =>
      if negb (isdigit name) then Some (get_area_id name) else area
  | _ => area
  end.

Definition search_params (q : search_args) (area : option string)
  : list (string * pyarg) :=
  let params :=
    [ ("text", ArgStr (q_text q)); ("page", ArgInt (q_page q));
      ("per_page", ArgInt (q_per_page q)) ] in
  let params := add_str "area" area params in
  let params := add_int "salary_from" (q_salary_from q) params in
  let params := add_int "salary_to" (q_salary_to q) params in
  let params := add_str "experience" (q_experience q) params in
  let params := add_str "employment" (q_employment q) params in
  add_str "schedule" (q_schedule q) params.

(** The result of a search: the cache it leaves, the request it made (if
    any), and what it returns or raises. *)
Record search_result := mk_result {
  r_cache : list (string * (page_data * Z));
  r_request : option (list (string * pyarg));
  r_outcome : outcome page_data
}.

(** The part of [search_vacancies] after the cache lookup. *)
Definition request_page (http : list (string * pyarg) -> http_outcome)
  (now_store : Z) (q : search_args) (cache : list (string * (page_data * Z)))
  : search_result :=
  let area := resolved_area (q_area q) in
  let params := search_params q area in
  match http params with
  | Responded status data =>
      if (status =? 200)%Z then
        let cache :=
          if q_use_cache q && (q_page q =? 0)%Z
          then _set_cache now_store (search_key q area) data cache
          else cache in
        mk_result cache (Some params) (Returned data)
      else if (status =? 429)%Z then
        mk_result cache (Some params)
          (Raised "Слишком много запросов к HH API. Попробуйте позже.")
      else if (500 <=? status)%Z then
        mk_result cache (Some params)
          (Raised (String.append "Ошибка сервера HH API ("
                     (String.append (str_of_int status) "). Попробуйте позже.")))
      else
        mk_result cache (Some params)
          (Raised (String.append "Ошибка HH API: " (str_of_int status)))
  | TimedOut =>
      mk_result cache (Some params)
        (Raised "Тайм-аут при запросе к HH API. Проверьте соединение.")
  | ConnectionFailed error =>
      mk_result cache (Some params)
        (Raised (String.append "Ошибка соединения с HH API: " error))
  end.

Definition search_vacancies (http : list (string * pyarg) -> http_outcome)
  (now_lookup now_store : Z) (q : search_args)
  (cache : list (string * (page_data * Z))) : search_result :=
  if q_use_cache q && (q_page q =? 0)%Z then
    let cache_key := search_key q (q_area q) in
    let (cached, cache) := _get_from_cache now_lookup cache_key cache in
    match cached with
    | Some data =>
        if truthy_data data then mk_result cache None (Returned data)
        else request_page http now_store q cache
    | None => request_page http now_store q cache
    end
  else request_page http now_store q cache.

(** ** Collecting pages *)

(** The loop of [get_all_vacancies]: [remaining] is [max_pages - page], so
    that [page < max_pages] is [0 < remaining]; [search page] stands for the
    call [search_vacancies(text=text, area=area, page=page, **kwargs)]. *)
Fixpoint collect_pages (search : Z -> outcome page_data) (remaining : nat)
  (page : Z) (all_vacancies : list vacancy) : list vacancy :=
  match remaining with
  | O => all_vacancies
  | S remaining' =>
      match search page with
      | Raised _ => all_vacancies
      | Returned result =>
          match d_items result with
          | None | Some [] => all_vacancies
          | Some items =>
              let all_vacancies := all_vacancies ++ items in
              let pages := match d_pages result with Some n => n | None => 1%Z end in
              if (pages - 1 <=? page)%Z then all_vacancies
              else collect_pages search remaining' (page + 1)%Z all_vacancies
          end
      end
  end.

Definition get_all_vacancies (search : Z -> outcome page_data) (max_pages : Z)
  : list vacancy :=
  collect_pages search (Z.to_nat max_pages) 0%Z [].

(** * Vocabulary of the specification *)

(** [x] occurs in [l] at an earlier position than [y]. *)
Definition precedes {A : Type} (x y : A) (l : list A) : Prop :=
  exists l1 l2 l3, l = l1 ++ x :: l2 ++ y :: l3.

(** A ranked output [out] over the labels [ls] counted in that order: counts
    never increase along [out], and of two entries with the same count the one
    whose label was seen first in [ls] comes first. *)
Definition ranked_first_seen {K : Type} (eqb : K -> K -> bool)
  (ls : list K) (out : list (K * nat)) : Prop :=
  forall i j k1 n1 k2 n2,
    i < j ->
    nth_error out i = Some (k1, n1) ->
    nth_error out j = Some (k2, n2) ->
    n2 <= n1 /\ (n1 = n2 -> first_seen eqb k1 ls < first_seen eqb k2 ls).

(** The invariant of the counting loop: the keys are the labels seen so far,
    in the order of their first occurrence. *)
Definition keys_in_first_seen_order {K : Type} (eqb : K -> K -> bool)
  (c : list (K * nat)) (seen : list K) : Prop :=
  (forall k, In k (map fst c) <-> In k seen) /\
  (forall k1 k2, precedes k1 k2 (map fst c) ->
                 first_seen eqb k1 seen < first_seen eqb k2 seen).

(** *** Salary samples *)

Definition to_list {A : Type} (x : option A) : list A :=
  match x with
  | Some a => [a]
  | None => []
  end.

(** The bounds of a listing after the currency branch. *)
Definition converted_bounds (v : vacancy) : option Z * option Z :=
  match salary v with
  | Some sal => convert (currency_of sal) (s_from sal) (s_to sal)
  | None => (None, None)
  end.

(** The representative value of a listing, if it has one. *)
Definition listing_value (v : vacancy) : option Q :=
  range_value (fst (converted_bounds v)) (snd (converted_bounds v)).

(** Listing [v] adds exactly [points] to the overall sample and to the sample
    of its own tier, and nothing to any other tier, wherever it stands in the
    input. *)
Definition contributes (v : vacancy) (points : list Q) : Prop :=
  forall pre post,
    salaries (collect_salaries (pre ++ v :: post)) =
      salaries (collect_salaries pre) ++ points ++ salaries (collect_salaries post) /\
    forall name,
      tier_sample name (group_salaries (pre ++ v :: post)) =
        tier_sample name (group_salaries pre)
        ++ (if String.eqb name (tier_name v) then points else [])
        ++ tier_sample name (group_salaries post).

(** A bound the code uses: stated and not zero. *)
Definition usable (x : option Z) (a : Z) : Prop := x = Some a /\ a <> 0%Z.

(** A bound the code does not use: missing, null, or zero. *)
Definition unusable (x : option Z) : Prop := x = None \/ x = Some 0%Z.

(** The representative value as the specification words it, a bound being
    present when it is stated at all: the average of two present bounds, the
    one present bound, or nothing. *)
Definition claimed_value (from_val to_val : option Z) : option Q :=
  match from_val, to_val with
  | Some f, Some t => Some ((f + t) # 2)%Q
  | Some f, None => Some (inject_Z f)
  | None, Some t => Some (inject_Z t)
  | None, None => None
  end.

(** *** Label sequences, in the order the loops count them *)

Definition employer_labels (vacancies : list vacancy) : list label :=
  map employer_name vacancies.

Definition experience_labels (vacancies : list vacancy) : list label :=
  map experience_name vacancies.

Definition employment_labels (vacancies : list vacancy) : list label :=
  flat_map (fun v => to_list (employment_name v)) vacancies.

Definition schedule_labels (vacancies : list vacancy) : list label :=
  flat_map (fun v => to_list (schedule_name v)) vacancies.

Definition currency_labels (vacancies : list vacancy) : list string :=
  flat_map (fun v => to_list (option_map currency_of (salary v))) vacancies.

(** The keys a listing increments in the skill counter, one per vocabulary
    entry found in its text. *)
Definition skill_hits (v : vacancy) : list string :=
  match truthy_dict (snippet v) with
  | Some o =>
      map upper
        (filter (fun skill => contains (lower skill) (snippet_text o)) tech_skills)
  | None => []
  end.

Definition skill_labels (vacancies : list vacancy) : list string :=
  flat_map skill_hits vacancies.

(** The fixed rate of a currency code: 90 and 100 for the two recognised
    foreign currencies, 1 (no conversion) for every other code. *)
Definition rate_of (currency : string) : Z :=
  if String.eqb currency "USD" then 90%Z
  else if String.eqb currency "EUR" then 100%Z
  else 1%Z.

(** Listing [v] feeds the bounds [f] and [t] into the aggregates: the sample
    of lower bounds, the sample of upper bounds, and, collapsed to one value,
    the overall and per-tier samples. *)
Definition feeds (v : vacancy) (f t : option Z) : Prop :=
  contributes v (to_list (range_value f t)) /\
  forall pre post,
    salary_from_list (collect_salaries (pre ++ v :: post)) =
      salary_from_list (collect_salaries pre) ++ to_list (truthy_int f)
      ++ salary_from_list (collect_salaries post) /\
    salary_to_list (collect_salaries (pre ++ v :: post)) =
      salary_to_list (collect_salaries pre) ++ to_list (truthy_int t)
      ++ salary_to_list (collect_salaries post).

(** A bound multiplied by a rate. *)
Definition scaled (rate : Z) (x : option Z) : option Z :=
  option_map (fun n => (n * rate)%Z) x.



(** The listing with its zero bounds removed. *)
Definition without_zero_bounds (v : vacancy) : vacancy :=
  mk_vacancy
    (option_map
       (fun sal => mk_salary (truthy_int (s_from sal)) (truthy_int (s_to sal))
                     (s_currency sal))
       (salary v))
    (experience v) (employer v) (employment v) (schedule v) (snippet v).

(** *** Sample listings *)

Definition blank : vacancy := mk_vacancy None Absent Absent Absent Absent Absent.

Definition priced (from_val to_val : option Z) (currency : option string) : vacancy :=
  mk_vacancy (Some (mk_salary from_val to_val currency))
    Absent Absent Absent Absent Absent.

Definition requiring (text : string) : vacancy :=
  mk_vacancy None Absent Absent Absent Absent (Nested [("requirement", Some text)]).

Definition experienced (x : field) : vacancy :=
  mk_vacancy None x Absent Absent Absent Absent.

Definition employed_by (x : field) : vacancy :=
  mk_vacancy None Absent x Absent Absent Absent.

(** A range whose lower bound is zero. *)
Definition zero_from_listing : vacancy := priced (Some 0%Z) (Some 100000%Z) None.


(** Two listings in the baseline currency, the second the dearer one. *)
Definition cheap_listing : vacancy := priced (Some 100%Z) None None.

(** *** Histogram buckets *)

(** The ascending edges, each with the bucket of the values below it. *)
Definition edge_buckets : list (Z * string) :=
  [ (100000%Z, "до 100к"); (150000%Z, "100-150к"); (200000%Z, "150-200к");
    (250000%Z, "200-250к"); (300000%Z, "250-300к"); (400000%Z, "300-400к") ].

Definition top_bucket : string := "400к+".

(** The buckets as intervals: lower edge (included), upper edge (excluded). *)
Definition bucket_bounds : list (option Z * option Z * string) :=
  [ (None, Some 100000%Z, "до 100к");
    (Some 100000%Z, Some 150000%Z, "100-150к");
    (Some 150000%Z, Some 200000%Z, "150-200к");
    (Some 200000%Z, Some 250000%Z, "200-250к");
    (Some 250000%Z, Some 300000%Z, "250-300к");
    (Some 300000%Z, Some 400000%Z, "300-400к");
    (Some 400000%Z, None, "400к+") ].

Definition in_bucket (lo hi : option Z) (s : Q) : Prop :=
  match lo with Some l => (inject_Z l <= s)%Q | None => True end /\
  match hi with Some h => (s < inject_Z h)%Q | None => True end.

(** The range 100000..200000 in the baseline currency. *)
Definition midrange_listing : vacancy := priced (Some 100000%Z) (Some 200000%Z) None.

(** The histogram of a salary result, empty when there are no statistics. *)
Definition result_distribution (r : salary_result) : list (string * nat) :=
  match r with
  | Available stats => distribution stats
  | Unavailable _ => []
  end.

(** *** Categories *)

(** A field carries a resolvable value: a non-empty string or a non-empty
    object. *)
Definition resolvable (x : field) : bool :=
  match x with
  | Bare (String _ _) => true
  | Nested (_ :: _) => true
  | _ => false
  end.

(** The experience code a field carries: the bare string, or the [id] of the
    object. *)
Definition experience_code (x : field) : option string :=
  match x with
  | Bare ((String _ _) as s) => Some s
  | Nested o =>
      match dict_get o "id" with
      | Some (Some code) => Some code
      | _ => None
      end
  | _ => None
  end.

(** The tier of a field as the specification words it: the code looked up in
    the fixed table, and "unspecified" for an unknown or absent code. *)
Definition resolve_tier (x : field) : string :=
  match experience_code x with
  | Some code =>
      match dict_get exp_map code with
      | Some tier => tier
      | None => unspecified
      end
  | None => unspecified
  end.

(** No experience data: a missing or empty field, or an object without an
    [id] key. *)
Definition no_experience_data (x : field) : Prop :=
  x = Absent \/ x = Bare "" \/ exists o, x = Nested o /\ dict_get o "id" = None.

(** A listing whose experience code is not in the table. *)
Definition intern_listing : vacancy := experienced (Bare "intern").

(** A listing that mentions one keyword once. *)
Definition redis_listing : vacancy := requiring "redis".

(** Two employers with two listings each, "B" seen first. *)
Definition tie_listings : list vacancy :=
  [ employed_by (Bare "B"); employed_by (Bare "A");
    employed_by (Bare "A"); employed_by (Bare "B") ].

(** *** Further vocabulary: samples and counts *)

(** The five tier names, in the order of the grouping dict. *)
Definition tier_names : list string := map fst salary_by_exp_init.



(** The listing has a salary object that states a non-zero bound. *)
Definition states_bound (v : vacancy) : bool :=
  match salary v with
  | Some sal =>
      match truthy_int (s_from sal), truthy_int (s_to sal) with
      | None, None => false
      | _, _ => true
      end
  | None => false
  end.

(** The number of occurrences of [k] in [ks]. *)
Definition occurrences {K : Type} (eqb : K -> K -> bool) (k : K) (ks : list K) : nat :=
  List.length (filter (eqb k) ks).

Definition label_dec (a b : label) : {a = b} + {a <> b}.
Proof. decide equality. apply string_dec. Defined.


(** The listing carries a salary object. *)
Definition has_salary (v : vacancy) : bool :=
  match salary v with
  | Some _ => true
  | None => false
  end.

(** A listing with a salary object in USD that states no bound. *)
Definition unpriced_usd_listing : vacancy := priced None None (Some "USD").

(** The numbers of values of [xs] below [v], and not above [v]. *)
Definition count_below (v : Q) (xs : list Q) : nat :=
  List.length (filter (fun x => Qltb x v) xs).

Definition count_up_to (v : Q) (xs : list Q) : nat :=
  List.length (filter (fun x => negb (Qltb v x)) xs).

(** *** Vocabulary of the listing source *)

(** Items in ascending order of their keys. *)
Definition key_le (e e' : string * pyarg) : Prop :=
  String.leb (fst e) (fst e') = true.

(** A first-page search through the cache. *)
Definition cached_search (q : search_args) : Prop :=
  q_use_cache q = true /\ q_page q = 0%Z.

(** A search for Moscow by name, and a response with one listing. *)
Definition moscow_search : search_args :=
  mk_search "python" (Some "Москва") None None None None None 0 100 true.

Definition one_listing_page : page_data := mk_page (Some [blank]) (Some 1%Z) true.

(** The listings of a page: none when the search raised or gave no items. *)
Definition page_items (search : Z -> outcome page_data) (page : Z) : list vacancy :=
  match search page with
  | Returned result =>
      match d_items result with
      | Some items => items
      | None => []
      end
  | Raised _ => []
  end.

(** The number of pages a page declares (1 when it declares none). *)
Definition declared_pages (search : Z -> outcome page_data) (page : Z) : Z :=
  match search page with
  | Returned result =>
      match d_pages result with
      | Some n => n
      | None => 1%Z
      end
  | Raised _ => 1%Z
  end.

(** The listings of the pages [0 .. k-1], in order. *)
Definition first_pages (search : Z -> outcome page_data) (k : nat) : list vacancy :=
  flat_map (fun i => page_items search (Z.of_nat i)) (seq 0 k).

(** *** The range of the embedding

    [(from_val + to_val) / 2], [np.mean] and [np.median] compute in IEEE
    doubles, where the embedding keeps exact rationals. A double holds every
    multiple of 1/2 below 2^52 in magnitude, so the two agree as long as the
    sums the code forms stay in that range; the quotient of such a sum by the
    count is then rounded without crossing an integer, and truncates to the
    same integer. *)

(** The sum of two bounds has a half that a double holds exactly. *)
Definition exact_half (a b : Z) : Prop := (Z.abs (a + b) < 2 ^ 53)%Z.

(** The magnitude of a bound, none for a missing one. *)
Definition magnitude (x : option Z) : Z :=
  match x with
  | Some n => Z.abs n
  | None => 0%Z
  end.

(** What a listing can add to the magnitude of a sum of its sample, and one
    for the count the sum is divided by. *)
Definition listing_weight (v : vacancy) : Z :=
  (magnitude (fst (converted_bounds v)) + magnitude (snd (converted_bounds v)) + 1)%Z.

(** The listings keep every sum of the statistics, in whatever order it is
    formed, in the range where doubles are exact. *)
Definition float_exact (vacancies : list vacancy) : Prop :=
  (fold_right (fun v total => listing_weight v + total) 0 vacancies < 2 ^ 52)%Z.

(** UTF-8 text over ASCII and the Cyrillic letters U+0400-U+045F: the text on
    which [lower], [strip] and [isdigit] are [str.lower], [str.strip] and
    [str.isdigit]. *)
Fixpoint plain_text (s : string) : bool :=
  match s with
  | EmptyString => true
  | String c rest =>
      let n := N_of_ascii c in
      if (n <? 128)%N then plain_text rest
      else
        match rest with
        | EmptyString => false
        | String d rest' =>
            let m := N_of_ascii d in
            (((n =? 208) && (128 <=? m) && (m <=? 191))
             || ((n =? 209) && (128 <=? m) && (m <=? 159)))%N
            && plain_text rest'
        end
  end.


(** The area of a search, when one is given, is plain. *)
Definition plain_area (area : option string) : bool :=
  match area with
  | Some name => plain_text name
  | None => true
  end.


(** * Properties *)

(** ** Lists: one element before another *)

Section Precedes.
Context {A : Type}.

Lemma precedes_in (x y : A) (l : list A) :
  precedes x y l -> In x l /\ In y l.
Proof.
  intros (l1 & l2 & l3 & ->). split.
  - apply in_or_app. right. left. reflexivity.
  - apply in_or_app. right. right. apply in_or_app. right. left. reflexivity.
Qed.

Lemma precedes_cons (x y a : A) (l : list A) :
  precedes x y (a :: l) <-> (x = a /\ In y l) \/ precedes x y l.
Proof.
  split.
  - intros (l1 & l2 & l3 & E). destruct l1 as [|b l1]; simpl in E.
    + injection E as -> ->. left. split; [reflexivity|].
      apply in_or_app. right. left. reflexivity.
    + injection E as -> ->. right. exists l1, l2, l3. reflexivity.
  - intros [[-> Hy] | (l1 & l2 & l3 & ->)].
    + apply in_split in Hy. destruct Hy as (l2 & l3 & ->).
      exists [], l2, l3. reflexivity.
    + exists (a :: l1), l2, l3. reflexivity.
Qed.

Lemma precedes_nil (x y : A) : ~ precedes x y [].
Proof.
  intros (l1 & l2 & l3 & E). destruct l1; discriminate E.
Qed.

Lemma precedes_snoc (x y k : A) (l : list A) :
  precedes x y (l ++ [k]) -> precedes x y l \/ (In x l /\ y = k).
Proof.
  induction l as [|a l IH]; simpl.
  - intros H. apply precedes_cons in H. destruct H as [[_ []] | H].
    now apply precedes_nil in H.
  - intros H. apply precedes_cons in H. destruct H as [[-> Hy] | H].
    + apply in_app_or in Hy. destruct Hy as [Hy | [<- | []]].
      * left. apply precedes_cons. left. split; [reflexivity | exact Hy].
      * right. split; [left; reflexivity | reflexivity].
    + destruct (IH H) as [H' | [Hx ->]].
      * left. apply precedes_cons. right. exact H'.
      * right. split; [right; exact Hx | reflexivity].
Qed.

Lemma precedes_firstn (x y : A) (n : nat) (l : list A) :
  precedes x y (firstn n l) -> precedes x y l.
Proof.
  intros (l1 & l2 & l3 & E). exists l1, l2, (l3 ++ skipn n l).
  rewrite <- (firstn_skipn n l) at 1. rewrite E.
  rewrite <- !app_assoc. simpl. rewrite <- app_assoc. reflexivity.
Qed.

Lemma precedes_nth_error (l : list A) :
  forall i j x y, i < j -> nth_error l i = Some x -> nth_error l j = Some y ->
  precedes x y l.
Proof.
  induction l as [|a l IH]; intros i j x y Hij Hi Hj.
  - destruct i; discriminate Hi.
  - destruct j as [|j]; [lia|]. simpl in Hj. apply precedes_cons.
    destruct i as [|i]; simpl in Hi.
    + injection Hi as ->. left. split; [reflexivity|].
      eapply nth_error_In; eassumption.
    + right. apply (IH i j); [lia | assumption | assumption].
Qed.

End Precedes.

Lemma precedes_map {A B : Type} (f : A -> B) (x y : A) (l : list A) :
  precedes x y l -> precedes (f x) (f y) (map f l).
Proof.
  intros (l1 & l2 & l3 & ->). exists (map f l1), (map f l2), (map f l3).
  rewrite map_app. simpl. rewrite map_app. reflexivity.
Qed.

(** ** Counters *)

Lemma total_count_incr {K : Type} (eqb : K -> K -> bool) (k : K) (c : list (K * nat)) :
  total_count (incr eqb k c) = S (total_count c).
Proof.
  induction c as [|[k' n] c IH]; simpl.
  - reflexivity.
  - destruct (eqb k k'); simpl; [reflexivity | rewrite IH; lia].
Qed.

Lemma total_count_count_all {K : Type} (eqb : K -> K -> bool) (ks : list K) :
  forall c, total_count (count_all eqb ks c) = List.length ks + total_count c.
Proof.
  unfold count_all. induction ks as [|k ks IH]; intros c; simpl.
  - reflexivity.
  - rewrite IH, total_count_incr. lia.
Qed.

Lemma total_count_insert_desc {K : Type} (e : K * nat) (l : list (K * nat)) :
  total_count (insert_desc e l) = snd e + total_count l.
Proof.
  induction l as [|e' l IH]; simpl.
  - reflexivity.
  - destruct (snd e <? snd e'); simpl; [rewrite IH; lia | reflexivity].
Qed.

Lemma total_count_most_common {K : Type} (c : list (K * nat)) :
  total_count (most_common c) = total_count c.
Proof.
  induction c as [|e c IH]; simpl.
  - reflexivity.
  - rewrite total_count_insert_desc, IH. reflexivity.
Qed.

Lemma length_insert_desc {K : Type} (e : K * nat) (l : list (K * nat)) :
  List.length (insert_desc e l) = S (List.length l).
Proof.
  induction l as [|e' l IH]; simpl.
  - reflexivity.
  - destruct (snd e <? snd e'); simpl; [rewrite IH|]; reflexivity.
Qed.

Lemma length_most_common {K : Type} (c : list (K * nat)) :
  List.length (most_common c) = List.length c.
Proof.
  induction c as [|e c IH]; simpl.
  - reflexivity.
  - rewrite length_insert_desc, IH. reflexivity.
Qed.

Lemma in_insert_desc {K : Type} (e x : K * nat) (l : list (K * nat)) :
  In x (insert_desc e l) -> x = e \/ In x l.
Proof.
  induction l as [|e' l IH]; simpl.
  - intros [<- | []]. left. reflexivity.
  - destruct (snd e <? snd e'); simpl.
    + intros [<- | H]; [right; left; reflexivity|].
      destruct (IH H) as [-> | H']; [left; reflexivity | right; right; exact H'].
    + intros [<- | H]; [left; reflexivity | right; exact H].
Qed.

Lemma in_most_common {K : Type} (x : K * nat) (c : list (K * nat)) :
  In x (most_common c) -> In x c.
Proof.
  induction c as [|e c IH]; simpl.
  - intros [].
  - intros H. apply in_insert_desc in H. destruct H as [-> | H].
    + left. reflexivity.
    + right. apply IH, H.
Qed.

(** Inserting into a descending list: what the new list orders, it orders by
    count, the new entry going before the entries it ties with. *)
Lemma precedes_insert_desc {K : Type} (e x y : K * nat) (l : list (K * nat)) :
  (forall a b, precedes a b l -> snd b <= snd a) ->
  precedes x y (insert_desc e l) ->
  (x = e /\ In y l /\ snd y <= snd e) \/
  (y = e /\ In x l /\ snd e < snd x) \/
  precedes x y l.
Proof.
  induction l as [|a l IH]; intros Hdesc H; simpl in H.
  - apply precedes_cons in H. destruct H as [[_ []] | H].
    now apply precedes_nil in H.
  - destruct (Nat.ltb_spec (snd e) (snd a)) as [Hlt | Hge].
    + apply precedes_cons in H. destruct H as [[-> Hy] | H].
      * apply in_insert_desc in Hy. destruct Hy as [-> | Hy].
        -- right. left. split; [reflexivity|]. split; [left; reflexivity | exact Hlt].
        -- right. right. apply precedes_cons. left. split; [reflexivity | exact Hy].
      * assert (Hd : forall u w, precedes u w l -> snd w <= snd u).
        { intros u w Huw. apply Hdesc. apply precedes_cons. right. exact Huw. }
        destruct (IH Hd H) as [(-> & Hy & Hle) | [(-> & Hx & Hl) | H']].
        -- left. split; [reflexivity|]. split; [right; exact Hy | exact Hle].
        -- right. left. split; [reflexivity|]. split; [right; exact Hx | exact Hl].
        -- right. right. apply precedes_cons. right. exact H'.
    + apply precedes_cons in H. destruct H as [[-> Hy] | H].
      * left. split; [reflexivity|]. split; [exact Hy|].
        destruct Hy as [<- | Hy]; [exact Hge|].
        assert (snd y <= snd a); [|lia].
        apply Hdesc. apply precedes_cons. left. split; [reflexivity | exact Hy].
      * right. right. exact H.
Qed.

(** [most_common] sorts by descending count and is stable. *)
Lemma most_common_stable {K : Type} (c : list (K * nat)) :
  forall x y, precedes x y (most_common c) ->
  snd y <= snd x /\ (snd x = snd y -> precedes x y c).
Proof.
  induction c as [|a c IH]; intros x y H; simpl in H.
  - now apply precedes_nil in H.
  - apply precedes_insert_desc in H; [|intros u w Huw; apply (IH u w Huw)].
    destruct H as [(-> & Hy & Hle) | [(-> & Hx & Hl) | H]].
    + split; [exact Hle|]. intros _. apply precedes_cons. left.
      split; [reflexivity | apply in_most_common, Hy].
    + split; [lia | intros E; lia].
    + destruct (IH x y H) as [Hle Hst]. split; [exact Hle|].
      intros E. apply precedes_cons. right. apply Hst, E.
Qed.

(** ** Keys of a counter come in first-seen order *)

Section FirstSeen.
Context {K : Type} (eqb : K -> K -> bool).
Hypothesis eqb_eq : forall x y, eqb x y = true <-> x = y.

Lemma eqb_refl_true (k : K) : eqb k k = true.
Proof. apply eqb_eq. reflexivity. Qed.

Lemma keys_incr (k : K) (c : list (K * nat)) :
  (In k (map fst c) /\ map fst (incr eqb k c) = map fst c) \/
  (~ In k (map fst c) /\ map fst (incr eqb k c) = map fst c ++ [k]).
Proof.
  induction c as [|[k' n] c IH]; cbn.
  - right. split; [intros [] | reflexivity].
  - destruct (eqb k k') eqn:E; cbn.
    + apply eqb_eq in E. subst k'. left. split; [left; reflexivity | reflexivity].
    + assert (k' <> k).
      { intros ->. rewrite eqb_refl_true in E. discriminate E. }
      destruct IH as [[Hin Heq] | [Hnin Heq]]; rewrite Heq.
      * left. split; [right; exact Hin | reflexivity].
      * right. split; [|reflexivity]. intros [F | F]; [exact (H F) | exact (Hnin F)].
Qed.

Lemma first_seen_in_lt (k : K) (ks : list K) :
  In k ks -> first_seen eqb k ks < List.length ks.
Proof.
  induction ks as [|k' ks IH]; simpl.
  - intros [].
  - destruct (eqb k k') eqn:E; [lia|].
    intros [-> | H]; [rewrite eqb_refl_true in E; discriminate E|].
    apply IH in H. lia.
Qed.

Lemma first_seen_app_in (k : K) (ks more : list K) :
  In k ks -> first_seen eqb k (ks ++ more) = first_seen eqb k ks.
Proof.
  induction ks as [|k' ks IH]; simpl.
  - intros [].
  - destruct (eqb k k') eqn:E; [reflexivity|].
    intros [-> | H]; [rewrite eqb_refl_true in E; discriminate E|].
    rewrite (IH H). reflexivity.
Qed.

Lemma first_seen_new (k : K) (ks : list K) :
  ~ In k ks -> first_seen eqb k (ks ++ [k]) = List.length ks.
Proof.
  induction ks as [|k' ks IH]; simpl.
  - intros _. rewrite eqb_refl_true. reflexivity.
  - intros H. destruct (eqb k k') eqn:E.
    + apply eqb_eq in E. subst k'. exfalso. apply H. left. reflexivity.
    + rewrite IH; [reflexivity|]. intros F. apply H. right. exact F.
Qed.

Lemma incr_keeps_first_seen_order (k : K) (c : list (K * nat)) (seen : list K) :
  keys_in_first_seen_order eqb c seen ->
  keys_in_first_seen_order eqb (incr eqb k c) (seen ++ [k]).
Proof.
  unfold keys_in_first_seen_order. intros [Hmem Hord].
  assert (Hold : forall k1 k2, precedes k1 k2 (map fst c) ->
            first_seen eqb k1 (seen ++ [k]) < first_seen eqb k2 (seen ++ [k])).
  { intros k1 k2 H. destruct (precedes_in _ _ _ H) as [H1 H2].
    rewrite !first_seen_app_in by (apply Hmem; assumption). apply Hord, H. }
  destruct (keys_incr k c) as [[Hin Heq] | [Hnin Heq]]; rewrite Heq; split.
  - intros k'. rewrite Hmem, in_app_iff. simpl. split; [tauto|].
    intros [H | [<- | []]]; [exact H | apply Hmem, Hin].
  - exact Hold.
  - intros k'. rewrite !in_app_iff, Hmem. reflexivity.
  - intros k1 k2 H. apply precedes_snoc in H. destruct H as [H | [H1 ->]].
    + apply Hold, H.
    + rewrite first_seen_app_in by (apply Hmem, H1).
      rewrite first_seen_new by (intros F; apply Hnin, Hmem, F).
      apply first_seen_in_lt, Hmem, H1.
Qed.

Lemma count_all_keeps_first_seen_order (ks : list K) :
  forall c seen,
    keys_in_first_seen_order eqb c seen ->
    keys_in_first_seen_order eqb (count_all eqb ks c) (seen ++ ks).
Proof.
  unfold count_all. induction ks as [|k ks IH]; intros c seen H; simpl.
  - rewrite app_nil_r. exact H.
  - replace (seen ++ k :: ks) with ((seen ++ [k]) ++ ks)
      by (rewrite <- app_assoc; reflexivity).
    apply IH, incr_keeps_first_seen_order, H.
Qed.

(** A ranking of the counter built from [ks] is ordered by count, ties by
    first occurrence in [ks]; so is any prefix of it. *)
Lemma most_common_n_ranked (n : nat) (ks : list K) :
  ranked_first_seen eqb ks (most_common_n n (count_all eqb ks [])).
Proof.
  intros i j k1 n1 k2 n2 Hij Hi Hj.
  pose proof (precedes_nth_error _ _ _ _ _ Hij Hi Hj) as H.
  apply precedes_firstn, most_common_stable in H. simpl in H.
  destruct H as [Hle Hst]. split; [exact Hle|].
  intros E. specialize (Hst E).
  apply (precedes_map fst) in Hst. simpl in Hst.
  assert (Hinv : keys_in_first_seen_order eqb [] []).
  { split; [intros k; simpl; tauto|]. intros a b F. now apply precedes_nil in F. }
  apply (count_all_keeps_first_seen_order ks) in Hinv. simpl in Hinv.
  apply Hinv, Hst.
Qed.

Lemma most_common_ranked (ks : list K) :
  ranked_first_seen eqb ks (most_common (count_all eqb ks [])).
Proof.
  pose proof (most_common_n_ranked (List.length ks) ks) as H.
  unfold most_common_n in H. rewrite firstn_all2 in H; [exact H|].
  rewrite length_most_common.
  assert (L : forall l (c : list (K * nat)),
            List.length (count_all eqb l c) <= List.length l + List.length c).
  { unfold count_all. induction l as [|k l IH]; intros c; simpl; [lia|].
    etransitivity; [apply IH|].
    assert (List.length (incr eqb k c) <= S (List.length c)); [|lia].
    clear. induction c as [|[k' m] c IHc]; simpl; [lia|].
    destruct (eqb k k'); simpl; lia. }
  specialize (L ks []). simpl in L. lia.
Qed.

End FirstSeen.

(** ** The loops as counters of label sequences *)

Lemma label_eqb_eq (a b : label) : label_eqb a b = true <-> a = b.
Proof.
  destruct a as [x|], b as [y|]; simpl.
  - rewrite String.eqb_eq. split; [intros ->; reflexivity | intros E; injection E; auto].
  - split; discriminate.
  - split; discriminate.
  - tauto.
Qed.

Lemma count_all_app {K : Type} (eqb : K -> K -> bool) (a b : list K) (c : list (K * nat)) :
  count_all eqb (a ++ b) c = count_all eqb b (count_all eqb a c).
Proof. unfold count_all. apply fold_left_app. Qed.

Lemma fold_incr_map {K V : Type} (eqb : K -> K -> bool) (f : V -> K) (vs : list V) :
  forall c,
    fold_left (fun acc v => incr eqb (f v) acc) vs c = count_all eqb (map f vs) c.
Proof.
  unfold count_all. induction vs as [|v vs IH]; intros c; simpl.
  - reflexivity.
  - apply IH.
Qed.

Lemma fold_count_optional {V : Type} (f : V -> option label) (vs : list V) :
  forall c,
    fold_left (fun acc v => count_optional acc (f v)) vs c =
    count_all label_eqb (flat_map (fun v => to_list (f v)) vs) c.
Proof.
  induction vs as [|v vs IH]; intros c; simpl.
  - reflexivity.
  - rewrite count_all_app, IH. destruct (f v); reflexivity.
Qed.

Lemma scan_text_count_all (text : string) (skills : list string) :
  forall c,
    scan_text skills text c =
    count_all String.eqb
      (map upper (filter (fun skill => contains (lower skill) text) skills)) c.
Proof.
  unfold scan_text, count_all. induction skills as [|s skills IH]; intros c; simpl.
  - reflexivity.
  - destruct (contains (lower s) text); simpl; apply IH.
Qed.

Lemma skill_step_hits (c : list (string * nat)) (v : vacancy) :
  skill_step c v = count_all String.eqb (skill_hits v) c.
Proof.
  unfold skill_step, skill_hits. destruct (truthy_dict (snippet v)).
  - apply scan_text_count_all.
  - reflexivity.
Qed.

Lemma skill_counter_count_all (vs : list vacancy) :
  forall c, fold_left skill_step vs c = count_all String.eqb (skill_labels vs) c.
Proof.
  unfold skill_labels. induction vs as [|v vs IH]; intros c; simpl.
  - reflexivity.
  - rewrite count_all_app, IH, skill_step_hits. reflexivity.
Qed.

Lemma currency_stats_count_all (vs : list vacancy) :
  forall acc,
    currency_stats (fold_left salary_step vs acc) =
    count_all String.eqb (currency_labels vs) (currency_stats acc).
Proof.
  unfold currency_labels. induction vs as [|v vs IH]; intros acc; simpl.
  - reflexivity.
  - rewrite count_all_app, IH. f_equal.
    unfold salary_step. destruct (salary v) as [sal|]; simpl.
    + destruct (convert (currency_of sal) (s_from sal) (s_to sal)). reflexivity.
    + reflexivity.
Qed.

(** C8. Every ranked output is ordered by descending count, and two entries
    with the same count stand in the order in which their labels were first
    counted while the input was read: the employer top 20, the experience,
    employment and schedule counts, the skill top 20, and the currency top 5. *)
Theorem ranked_outputs_descending_then_first_seen (vacancies : list vacancy) :
  ranked_first_seen label_eqb (employer_labels vacancies)
    (top_20 (analyze_companies vacancies)) /\
  ranked_first_seen label_eqb (experience_labels vacancies)
    (analyze_experience vacancies) /\
  ranked_first_seen label_eqb (employment_labels vacancies)
    (analyze_employment vacancies) /\
  ranked_first_seen label_eqb (schedule_labels vacancies)
    (analyze_schedule vacancies) /\
  ranked_first_seen String.eqb (skill_labels vacancies)
    (skills_top_20 (extract_skills vacancies)) /\
  match analyze_salaries vacancies with
  | Available stats =>
      ranked_first_seen String.eqb (currency_labels vacancies) (currencies stats)
  | Unavailable _ => True
  end.
Proof.
  refine (conj _ (conj _ (conj _ (conj _ (conj _ _))))).
  - unfold analyze_companies, companies_counter, employer_labels. simpl.
    rewrite fold_incr_map. apply most_common_n_ranked, label_eqb_eq.
  - unfold analyze_experience, experience_counter, experience_labels.
    rewrite fold_incr_map. apply most_common_ranked, label_eqb_eq.
  - unfold analyze_employment, employment_counter, employment_labels.
    rewrite fold_count_optional. apply most_common_ranked, label_eqb_eq.
  - unfold analyze_schedule, schedule_counter, schedule_labels.
    rewrite fold_count_optional. apply most_common_ranked, label_eqb_eq.
  - unfold extract_skills, skill_counter. simpl.
    rewrite skill_counter_count_all. apply most_common_n_ranked, String.eqb_eq.
  - unfold analyze_salaries.
    destruct (salaries (collect_salaries vacancies)); [exact I|].
    simpl. unfold collect_salaries.
    rewrite currency_stats_count_all. apply most_common_n_ranked, String.eqb_eq.
Qed.

Lemma ranked_outputs_descending_then_first_seen_witness :
  top_20 (analyze_companies tie_listings) = [(Some "B", 2); (Some "A", 2)] /\
  first_seen label_eqb (Some "B") (employer_labels tie_listings)
  < first_seen label_eqb (Some "A") (employer_labels tie_listings).
Proof.
  split; [reflexivity|].
  destruct (ranked_outputs_descending_then_first_seen tie_listings) as [H _].
  apply (proj2 (H 0 1 (Some "B") 2 (Some "A") 2 (le_n 1) eq_refl eq_refl) eq_refl).
Defined.

(** ** Salary samples, listing by listing *)

Lemma salary_step_salaries (acc : salary_acc) (v : vacancy) :
  salaries (salary_step acc v) = salaries acc ++ to_list (listing_value v).
Proof.
  unfold salary_step, listing_value, converted_bounds.
  destruct (salary v) as [sal|]; simpl.
  - destruct (convert (currency_of sal) (s_from sal) (s_to sal)) as [f t]. simpl.
    destruct (range_value f t); simpl; [reflexivity | rewrite app_nil_r; reflexivity].
  - rewrite app_nil_r. reflexivity.
Qed.

Lemma salary_step_from_list (acc : salary_acc) (v : vacancy) :
  salary_from_list (salary_step acc v) =
  salary_from_list acc ++ to_list (truthy_int (fst (converted_bounds v))).
Proof.
  unfold salary_step, converted_bounds.
  destruct (salary v) as [sal|]; simpl.
  - destruct (convert (currency_of sal) (s_from sal) (s_to sal)) as [f t]. simpl.
    destruct (truthy_int f); simpl; [reflexivity | rewrite app_nil_r; reflexivity].
  - rewrite app_nil_r. reflexivity.
Qed.

Lemma salary_step_to_list (acc : salary_acc) (v : vacancy) :
  salary_to_list (salary_step acc v) =
  salary_to_list acc ++ to_list (truthy_int (snd (converted_bounds v))).
Proof.
  unfold salary_step, converted_bounds.
  destruct (salary v) as [sal|]; simpl.
  - destruct (convert (currency_of sal) (s_from sal) (s_to sal)) as [f t]. simpl.
    destruct (truthy_int t); simpl; [reflexivity | rewrite app_nil_r; reflexivity].
  - rewrite app_nil_r. reflexivity.
Qed.

Lemma fold_salaries (vs : list vacancy) :
  forall acc,
    salaries (fold_left salary_step vs acc) =
    salaries acc ++ flat_map (fun v => to_list (listing_value v)) vs.
Proof.
  induction vs as [|v vs IH]; intros acc; simpl.
  - rewrite app_nil_r. reflexivity.
  - rewrite IH, salary_step_salaries, <- app_assoc. reflexivity.
Qed.

Lemma fold_from_list (vs : list vacancy) :
  forall acc,
    salary_from_list (fold_left salary_step vs acc) =
    salary_from_list acc
    ++ flat_map (fun v => to_list (truthy_int (fst (converted_bounds v)))) vs.
Proof.
  induction vs as [|v vs IH]; intros acc; simpl.
  - rewrite app_nil_r. reflexivity.
  - rewrite IH, salary_step_from_list, <- app_assoc. reflexivity.
Qed.

Lemma fold_to_list (vs : list vacancy) :
  forall acc,
    salary_to_list (fold_left salary_step vs acc) =
    salary_to_list acc
    ++ flat_map (fun v => to_list (truthy_int (snd (converted_bounds v)))) vs.
Proof.
  induction vs as [|v vs IH]; intros acc; simpl.
  - rewrite app_nil_r. reflexivity.
  - rewrite IH, salary_step_to_list, <- app_assoc. reflexivity.
Qed.

Lemma collect_salaries_values (vs : list vacancy) :
  salaries (collect_salaries vs) = flat_map (fun v => to_list (listing_value v)) vs.
Proof. unfold collect_salaries. rewrite fold_salaries. reflexivity. Qed.

(** *** Tier samples *)

Lemma dict_append_keys (d : list (string * list Q)) (key : string) (x : Q) :
  map fst (dict_append d key x) = map fst d.
Proof.
  induction d as [|[k l] d IH]; simpl.
  - reflexivity.
  - destruct (String.eqb k key); simpl; [reflexivity | rewrite IH; reflexivity].
Qed.

Lemma dict_append_sample (d : list (string * list Q)) (key name : string) (x : Q) :
  In key (map fst d) ->
  tier_sample name (dict_append d key x) =
  tier_sample name d ++ (if String.eqb name key then [x] else []).
Proof.
  unfold tier_sample, get_or.
  induction d as [|[k l] d IH]; simpl.
  - intros [].
  - intros Hin. destruct (String.eqb_spec k key) as [-> | Hk]; simpl.
    + destruct (String.eqb_spec key name) as [-> | Hn].
      * rewrite String.eqb_refl. reflexivity.
      * destruct (String.eqb_spec name key) as [-> | _]; [congruence|].
        rewrite app_nil_r. reflexivity.
    + destruct Hin as [E | Hin]; [congruence|].
      destruct (String.eqb_spec k name) as [-> | Hn].
      * destruct (String.eqb_spec name key) as [-> | _]; [congruence|].
        rewrite app_nil_r. reflexivity.
      * apply IH, Hin.
Qed.

Lemma get_or_exp_map_cases (code : string) :
  In (get_or exp_map code unspecified) (map fst salary_by_exp_init).
Proof.
  unfold get_or, exp_map. cbn [dict_get].
  repeat match goal with
         | |- context [String.eqb ?a ?b] => destruct (String.eqb a b)
         end; unfold unspecified; simpl; auto 10.
Qed.

Lemma tier_name_is_a_key (v : vacancy) :
  In (tier_name v) (map fst salary_by_exp_init).
Proof.
  unfold tier_name.
  destruct (truthy_dict (experience v)) as [o|];
    [destruct (get_or o "id" (Some unspecified)) as [code|]
    | destruct (truthy_str (experience v)) as [s|]];
    try apply get_or_exp_map_cases; unfold unspecified; simpl; auto 10.
Qed.

Lemma tier_step_keys (d : list (string * list Q)) (v : vacancy) :
  map fst (tier_step d v) = map fst d.
Proof.
  unfold tier_step. destruct (salary v) as [sal|]; [|reflexivity].
  destruct (convert (currency_of sal) (s_from sal) (s_to sal)) as [f t].
  destruct (range_value f t); [apply dict_append_keys | reflexivity].
Qed.

Lemma tier_step_sample (d : list (string * list Q)) (v : vacancy) (name : string) :
  map fst d = map fst salary_by_exp_init ->
  tier_sample name (tier_step d v) =
  tier_sample name d
  ++ (if String.eqb name (tier_name v) then to_list (listing_value v) else []).
Proof.
  intros Hkeys. unfold tier_step, listing_value, converted_bounds.
  destruct (salary v) as [sal|]; simpl.
  - destruct (convert (currency_of sal) (s_from sal) (s_to sal)) as [f t]. simpl.
    destruct (range_value f t) as [x|]; simpl.
    + apply dict_append_sample. rewrite Hkeys. apply tier_name_is_a_key.
    + destruct (String.eqb name (tier_name v)); rewrite app_nil_r; reflexivity.
  - destruct (String.eqb name (tier_name v)); rewrite app_nil_r; reflexivity.
Qed.

Lemma fold_tier_sample (vs : list vacancy) (name : string) :
  forall d,
    map fst d = map fst salary_by_exp_init ->
    tier_sample name (fold_left tier_step vs d) =
    tier_sample name d
    ++ flat_map (fun v => if String.eqb name (tier_name v)
                          then to_list (listing_value v) else []) vs.
Proof.
  induction vs as [|v vs IH]; intros d Hkeys; simpl.
  - rewrite app_nil_r. reflexivity.
  - rewrite IH by (rewrite tier_step_keys; exact Hkeys).
    rewrite tier_step_sample by exact Hkeys. rewrite <- app_assoc. reflexivity.
Qed.

Lemma group_salaries_values (vs : list vacancy) (name : string) :
  tier_sample name (group_salaries vs) =
  flat_map (fun v => if String.eqb name (tier_name v)
                     then to_list (listing_value v) else []) vs.
Proof.
  unfold group_salaries. rewrite fold_tier_sample by reflexivity.
  assert (E : tier_sample name salary_by_exp_init = []); [|rewrite E; reflexivity].
  unfold tier_sample, get_or, salary_by_exp_init. cbn [dict_get].
  repeat match goal with
         | |- context [String.eqb ?a ?b] => destruct (String.eqb a b)
         end; reflexivity.
Qed.

(** What a listing adds to the samples is its representative value. *)
Lemma listing_contributes_its_value (v : vacancy) :
  contributes v (to_list (listing_value v)).
Proof.
  intros pre post. split.
  - rewrite !collect_salaries_values, flat_map_app. reflexivity.
  - intros name. rewrite !group_salaries_values, flat_map_app. reflexivity.
Qed.

(** ** Bounds the code uses *)

Lemma truthy_int_usable (x : option Z) (a : Z) : usable x a -> truthy_int x = Some a.
Proof.
  intros [-> Ha]. simpl. destruct (Z.eqb_spec a 0); [contradiction | reflexivity].
Qed.

Lemma truthy_int_unusable (x : option Z) : unusable x -> truthy_int x = None.
Proof. intros [-> | ->]; reflexivity. Qed.

Lemma truthy_int_idempotent (x : option Z) : truthy_int (truthy_int x) = truthy_int x.
Proof.
  destruct x as [n|]; simpl; [|reflexivity].
  destruct (Z.eqb_spec n 0) as [E | E]; simpl; [reflexivity|].
  destruct (Z.eqb_spec n 0); [contradiction | reflexivity].
Qed.

Lemma truthy_int_scaled (rate : Z) (x : option Z) :
  rate <> 0%Z -> truthy_int (scaled rate x) = scaled rate (truthy_int x).
Proof.
  intros Hr. destruct x as [n|]; simpl; [|reflexivity].
  destruct (Z.eqb_spec n 0) as [-> | E]; simpl; [reflexivity|].
  destruct (Z.eqb_spec (n * rate) 0) as [F | F]; [|reflexivity].
  exfalso. apply Z.mul_eq_0 in F. tauto.
Qed.

Lemma truthy_int_times (rate : Z) (x : option Z) :
  rate <> 0%Z -> truthy_int (times rate x) = scaled rate (truthy_int x).
Proof.
  intros Hr. unfold times. destruct (truthy_int x) as [n|] eqn:E; simpl; [|reflexivity].
  destruct (Z.eqb_spec (n * rate) 0) as [F | F]; [|reflexivity].
  exfalso. apply Z.mul_eq_0 in F. destruct F as [-> | F]; [|contradiction].
  destruct x as [m|]; simpl in E; [|discriminate E].
  destruct (Z.eqb_spec m 0); [discriminate E | injection E as ->; contradiction].
Qed.

Lemma range_value_truthy (f t f' t' : option Z) :
  truthy_int f = truthy_int f' -> truthy_int t = truthy_int t' ->
  range_value f t = range_value f' t'.
Proof. unfold range_value. intros -> ->. reflexivity. Qed.

(** A listing feeds the aggregates its bounds after the currency branch. *)
Lemma listing_feeds_converted_bounds (v : vacancy) :
  feeds v (fst (converted_bounds v)) (snd (converted_bounds v)).
Proof.
  split; [apply listing_contributes_its_value|].
  intros pre post. unfold collect_salaries.
  rewrite !fold_from_list, !fold_to_list, !flat_map_app. simpl. split; reflexivity.
Qed.

Lemma feeds_truthy (v : vacancy) (f t f' t' : option Z) :
  truthy_int f = truthy_int f' -> truthy_int t = truthy_int t' ->
  feeds v f t -> feeds v f' t'.
Proof.
  intros Ef Et [Hc Hl]. split.
  - rewrite <- (range_value_truthy f t f' t' Ef Et). exact Hc.
  - intros pre post. rewrite <- Ef, <- Et. apply Hl.
Qed.

(** C1, as amended. For every listing carrying a salary object, with [cf]
    and [ct] its bounds after conversion, a bound being usable when it is
    stated and not zero: two usable bounds give their average (for bounds
    whose sum is below 2^53 in magnitude, where the floating-point division
    by two is exact), one usable bound gives that bound, and a listing with
    no usable bound adds no data point to the overall sample or to any tier's
    sample. *)
Theorem representative_value_from_usable_bounds
  (v : vacancy) (sal : salary_obj) (cf ct : option Z) :
  salary v = Some sal ->
  convert (currency_of sal) (s_from sal) (s_to sal) = (cf, ct) ->
  (forall a b, usable cf a -> usable ct b -> exact_half a b ->
     contributes v [((a + b) # 2)%Q]) /\
  (forall a, usable cf a -> unusable ct -> contributes v [inject_Z a]) /\
  (forall b, unusable cf -> usable ct b -> contributes v [inject_Z b]) /\
  (unusable cf -> unusable ct -> contributes v []).
Proof.
  intros Hs Hc.
  assert (E : listing_value v = range_value cf ct).
  { unfold listing_value, converted_bounds. rewrite Hs, Hc. reflexivity. }
  pose proof (listing_contributes_its_value v) as H. rewrite E in H.
  unfold range_value in H.
  refine (conj _ (conj _ (conj _ _))).
  - intros a b Ha Hb _.
    rewrite (truthy_int_usable _ _ Ha), (truthy_int_usable _ _ Hb) in H. exact H.
  - intros a Ha Hb.
    rewrite (truthy_int_usable _ _ Ha), (truthy_int_unusable _ Hb) in H. exact H.
  - intros b Ha Hb.
    rewrite (truthy_int_unusable _ Ha), (truthy_int_usable _ _ Hb) in H. exact H.
  - intros Ha Hb.
    rewrite (truthy_int_unusable _ Ha), (truthy_int_unusable _ Hb) in H. exact H.
Qed.

Lemma representative_value_from_usable_bounds_witness :
  contributes (priced (Some 100000%Z) (Some 200000%Z) None) [((100000 + 200000) # 2)%Q].
Proof.
  apply (proj1 (representative_value_from_usable_bounds
                  (priced (Some 100000%Z) (Some 200000%Z) None)
                  (mk_salary (Some 100000%Z) (Some 200000%Z) None)
                  (Some 100000%Z) (Some 200000%Z) eq_refl eq_refl)).
  - split; [reflexivity | discriminate].
  - split; [reflexivity | discriminate].
  - unfold exact_half. vm_compute. reflexivity.
Defined.

(** C1, as stated, fails on a zero bound: the range 0..100000 has both bounds
    stated, so the claim gives it the average 50000, while the code gives it
    the upper bound 100000. *)
Lemma zero_bound_is_not_averaged :
  converted_bounds zero_from_listing = (Some 0%Z, Some 100000%Z) /\
  claimed_value (Some 0%Z) (Some 100000%Z) = Some ((0 + 100000) # 2)%Q /\
  salaries (collect_salaries [zero_from_listing]) = [inject_Z 100000] /\
  ~ contributes zero_from_listing (to_list (claimed_value (Some 0%Z) (Some 100000%Z))).
Proof.
  refine (conj eq_refl (conj eq_refl (conj eq_refl _))).
  intros H. destruct (H [] []) as [E _]. discriminate E.
Qed.

(** ** Conversion as a multiplication of the bounds *)

Lemma rate_of_nonzero (currency : string) : rate_of currency <> 0%Z.
Proof.
  unfold rate_of.
  destruct (String.eqb currency "USD"); [discriminate|].
  destruct (String.eqb currency "EUR"); discriminate.
Qed.

Lemma scaled_one (x : option Z) : scaled 1 x = x.
Proof. destruct x as [n|]; simpl; [rewrite Z.mul_1_r|]; reflexivity. Qed.

Lemma truthy_int_convert (currency : string) (f t : option Z) :
  truthy_int (fst (convert currency f t)) = truthy_int (scaled (rate_of currency) f) /\
  truthy_int (snd (convert currency f t)) = truthy_int (scaled (rate_of currency) t).
Proof.
  unfold convert, rate_of.
  destruct (String.eqb currency "USD"); [|destruct (String.eqb currency "EUR")]; simpl.
  - rewrite !truthy_int_times, !truthy_int_scaled by discriminate. split; reflexivity.
  - rewrite !truthy_int_times, !truthy_int_scaled by discriminate. split; reflexivity.
  - rewrite !scaled_one. split; reflexivity.
Qed.

(** What a listing feeds into the aggregates is its stated bounds multiplied
    by the rate of its currency. *)
Lemma listing_feeds_scaled_bounds (v : vacancy) (sal : salary_obj) :
  salary v = Some sal ->
  feeds v (scaled (rate_of (currency_of sal)) (s_from sal))
          (scaled (rate_of (currency_of sal)) (s_to sal)).
Proof.
  intros Hs.
  destruct (truthy_int_convert (currency_of sal) (s_from sal) (s_to sal)) as [Ef Et].
  apply (feeds_truthy v (fst (converted_bounds v)) (snd (converted_bounds v))).
  - unfold converted_bounds. rewrite Hs. exact Ef.
  - unfold converted_bounds. rewrite Hs. exact Et.
  - apply listing_feeds_converted_bounds.
Qed.

(** ** Zero bounds *)

Lemma salary_step_without_zero (acc : salary_acc) (v : vacancy) :
  salary_step acc (without_zero_bounds v) = salary_step acc v.
Proof.
  unfold salary_step, without_zero_bounds. destruct (salary v) as [sal|]; simpl;
    [|reflexivity].
  unfold currency_of, convert, times. simpl.
  destruct (String.eqb _ "USD"); [|destruct (String.eqb _ "EUR")];
    rewrite ?truthy_int_idempotent; try reflexivity.
  rewrite (range_value_truthy (truthy_int (s_from sal)) (truthy_int (s_to sal))
             (s_from sal) (s_to sal))
    by apply truthy_int_idempotent.
  reflexivity.
Qed.

Lemma tier_step_without_zero (d : list (string * list Q)) (v : vacancy) :
  tier_step d (without_zero_bounds v) = tier_step d v.
Proof.
  unfold tier_step, without_zero_bounds, tier_name.
  destruct (salary v) as [sal|]; simpl; [|reflexivity].
  unfold currency_of, convert, times. simpl.
  destruct (String.eqb _ "USD"); [|destruct (String.eqb _ "EUR")];
    rewrite ?truthy_int_idempotent; try reflexivity.
  rewrite (range_value_truthy (truthy_int (s_from sal)) (truthy_int (s_to sal))
             (s_from sal) (s_to sal))
    by apply truthy_int_idempotent.
  reflexivity.
Qed.

Lemma fold_without_zero {S : Type} (step : S -> vacancy -> S) (vs : list vacancy) :
  (forall s v, step s (without_zero_bounds v) = step s v) ->
  forall s, fold_left step (map without_zero_bounds vs) s = fold_left step vs s.
Proof.
  intros Hstep. induction vs as [|v vs IH]; intros s; simpl.
  - reflexivity.
  - rewrite Hstep. apply IH.
Qed.

(** C10. A bound that is exactly 0 is treated as absent throughout the salary
    analysis: removing the zero bounds of every listing changes neither the
    overall statistics nor the per-tier statistics; a 0 bound enters neither
    the sample of lower bounds nor the sample of upper bounds; a listing
    whose only stated bound is 0 adds no representative value; and next to a
    0 bound the representative value is the other bound (at its currency's
    rate), not the average of the two. *)
Theorem zero_bound_treated_as_absent :
  (forall vacancies,
     analyze_salaries (map without_zero_bounds vacancies) = analyze_salaries vacancies /\
     analyze_salary_by_experience (map without_zero_bounds vacancies) =
       analyze_salary_by_experience vacancies) /\
  (forall v sal, salary v = Some sal ->
     (s_from sal = Some 0%Z -> forall pre post,
        salary_from_list (collect_salaries (pre ++ v :: post)) =
        salary_from_list (collect_salaries pre)
        ++ salary_from_list (collect_salaries post)) /\
     (s_to sal = Some 0%Z -> forall pre post,
        salary_to_list (collect_salaries (pre ++ v :: post)) =
        salary_to_list (collect_salaries pre)
        ++ salary_to_list (collect_salaries post)) /\
     ((s_from sal = Some 0%Z /\ s_to sal = None) \/
      (s_from sal = None /\ s_to sal = Some 0%Z) -> contributes v []) /\
     (forall b, s_from sal = Some 0%Z -> usable (s_to sal) b ->
        contributes v [inject_Z (b * rate_of (currency_of sal))]) /\
     (forall a, usable (s_from sal) a -> s_to sal = Some 0%Z ->
        contributes v [inject_Z (a * rate_of (currency_of sal))])).
Proof.
  split.
  - intros vs. unfold analyze_salaries, analyze_salary_by_experience,
      collect_salaries, group_salaries.
    rewrite (fold_without_zero salary_step vs salary_step_without_zero).
    rewrite (fold_without_zero tier_step vs tier_step_without_zero).
    split; reflexivity.
  - intros v sal Hs.
    destruct (listing_feeds_scaled_bounds v sal Hs) as [Hc Hl].
    pose proof (rate_of_nonzero (currency_of sal)) as Hr.
    refine (conj _ (conj _ (conj _ (conj _ _)))).
    + intros E pre post. destruct (Hl pre post) as [H _]. rewrite E in H. exact H.
    + intros E pre post. destruct (Hl pre post) as [_ H]. rewrite E in H. exact H.
    + intros [[Ef Et] | [Ef Et]]; rewrite Ef, Et in Hc; exact Hc.
    + intros b Ef [Et Hb]. rewrite Ef, Et in Hc. unfold range_value in Hc.
      rewrite truthy_int_scaled in Hc by exact Hr. simpl in Hc.
      destruct (Z.eqb_spec (b * rate_of (currency_of sal)) 0) as [F | F].
      * apply Z.mul_eq_0 in F. tauto.
      * exact Hc.
    + intros a [Ef Ha] Et. rewrite Ef, Et in Hc. unfold range_value in Hc.
      rewrite (truthy_int_scaled _ (Some 0%Z)) in Hc by exact Hr. simpl in Hc.
      destruct (Z.eqb_spec (a * rate_of (currency_of sal)) 0) as [F | F].
      * apply Z.mul_eq_0 in F. tauto.
      * exact Hc.
Qed.

Lemma zero_bound_treated_as_absent_witness :
  contributes (priced (Some 0%Z) (Some 100000%Z) (Some "USD"))
    [inject_Z (100000 * 90)].
Proof.
  destruct (proj2 zero_bound_treated_as_absent
              (priced (Some 0%Z) (Some 100000%Z) (Some "USD"))
              (mk_salary (Some 0%Z) (Some 100000%Z) (Some "USD")) eq_refl)
    as (_ & _ & _ & H & _).
  apply (H 100000%Z); [reflexivity | split; [reflexivity | discriminate]].
Defined.

(** ** Currency *)








(** ** Histogram *)

Lemma Qltb_lt (x y : Q) : Qltb x y = true <-> (x < y)%Q.
Proof. unfold Qltb, Qlt. apply Z.ltb_lt. Qed.

Lemma Qltb_ge (x y : Q) : Qltb x y = false <-> (y <= x)%Q.
Proof. unfold Qltb, Qle. apply Z.ltb_ge. Qed.

Lemma counter_get_incr (k k' : string) (c : list (string * nat)) :
  counter_get String.eqb k (incr String.eqb k' c) =
  counter_get String.eqb k c + (if String.eqb k k' then 1 else 0).
Proof.
  induction c as [|[k0 n] c IH]; simpl.
  - destruct (String.eqb k k'); reflexivity.
  - destruct (String.eqb_spec k' k0) as [-> | N]; simpl.
    + destruct (String.eqb_spec k k0); lia.
    + destruct (String.eqb_spec k k0) as [-> | N0].
      * destruct (String.eqb_spec k0 k'); [congruence | lia].
      * apply IH.
Qed.

Lemma fold_distribution_get (label : string) (xs : list Q) :
  forall dist,
    counter_get String.eqb label
      (fold_left (fun d s => incr String.eqb (bucket_of s) d) xs dist) =
    counter_get String.eqb label dist
    + List.length (filter (fun s => String.eqb label (bucket_of s)) xs).
Proof.
  induction xs as [|x xs IH]; intros dist; simpl.
  - lia.
  - rewrite IH, counter_get_incr.
    destruct (String.eqb label (bucket_of x)); simpl; lia.
Qed.

Lemma total_count_distribution (xs : list Q) :
  total_count (get_salary_distribution xs) = List.length xs.
Proof.
  unfold get_salary_distribution. rewrite fold_incr_map, total_count_count_all.
  rewrite length_map. simpl. lia.
Qed.

Lemma length_values_le (vs : list vacancy) :
  List.length (flat_map (fun v => to_list (listing_value v)) vs) <= List.length vs.
Proof.
  induction vs as [|v vs IH]; simpl.
  - lia.
  - rewrite length_app. destruct (listing_value v); simpl; lia.
Qed.

Lemma available_stats (vs : list vacancy) (stats : SalaryStats) :
  analyze_salaries vs = Available stats ->
  count stats = List.length (salaries (collect_salaries vs)) /\
  distribution stats = get_salary_distribution (salaries (collect_salaries vs)).
Proof.
  unfold analyze_salaries.
  destruct (salaries (collect_salaries vs)); [discriminate|].
  intros H. injection H as <-. split; reflexivity.
Qed.

(** C2. Whenever the analysis of a list of listings yields salary
    statistics, the histogram counts sum exactly to [count], and [count] is
    at most the number of listings. *)
Theorem histogram_sums_to_count (vacancies : list vacancy) (stats : SalaryStats) :
  vacancies <> [] ->
  analyze_salaries vacancies = Available stats ->
  total_count (distribution stats) = count stats /\
  count stats <= List.length vacancies.
Proof.
  intros _ H. apply available_stats in H. destruct H as [-> ->]. split.
  - apply total_count_distribution.
  - rewrite collect_salaries_values. apply length_values_le.
Qed.

Lemma histogram_sums_to_count_witness :
  exists stats,
    analyze_salaries [midrange_listing; blank] = Available stats /\
    total_count (distribution stats) = count stats /\
    count stats <= List.length [midrange_listing; blank].
Proof.
  eexists. split; [reflexivity|].
  apply (histogram_sums_to_count [midrange_listing; blank]).
  - discriminate.
  - reflexivity.
Defined.

Lemma find_first {A : Type} (p : A -> bool) (before after : list A) (e : A) :
  (forall x, In x before -> p x = false) -> p e = true ->
  find p (before ++ e :: after) = Some e.
Proof.
  induction before as [|x before IH]; intros Hb He; simpl.
  - rewrite He. reflexivity.
  - rewrite (Hb x) by (left; reflexivity).
    apply IH; [|exact He]. intros y Hy. apply Hb. right. exact Hy.
Qed.

Lemma find_none {A : Type} (p : A -> bool) (l : list A) :
  (forall x, In x l -> p x = false) -> find p l = None.
Proof.
  induction l as [|x l IH]; intros H; simpl.
  - reflexivity.
  - rewrite (H x) by (left; reflexivity). apply IH. intros y Hy. apply H. right. exact Hy.
Qed.

(** The chain of comparisons of [get_salary_distribution] is a search for the
    first edge above the value. *)
Lemma bucket_of_first_edge (s : Q) :
  bucket_of s =
  match find (fun e => Qltb s (inject_Z (fst e))) edge_buckets with
  | Some e => snd e
  | None => top_bucket
  end.
Proof.
  unfold bucket_of, edge_buckets, top_bucket, inject_Z. cbn [find fst snd].
  repeat match goal with
         | |- context [Qltb s ?e] => destruct (Qltb s e)
         end; reflexivity.
Qed.

Lemma bucket_of_interval (s : Q) (lo hi : option Z) (name : string) :
  In (lo, hi, name) bucket_bounds -> (bucket_of s = name <-> in_bucket lo hi s).
Proof.
  unfold bucket_of, in_bucket.
  destruct (Qltb s 100000) eqn:E1; [apply Qltb_lt in E1 | apply Qltb_ge in E1];
  destruct (Qltb s 150000) eqn:E2; [apply Qltb_lt in E2 | apply Qltb_ge in E2 | apply Qltb_lt in E2 | apply Qltb_ge in E2];
  destruct (Qltb s 200000) eqn:E3; try (apply Qltb_lt in E3); try (apply Qltb_ge in E3);
  destruct (Qltb s 250000) eqn:E4; try (apply Qltb_lt in E4); try (apply Qltb_ge in E4);
  destruct (Qltb s 300000) eqn:E5; try (apply Qltb_lt in E5); try (apply Qltb_ge in E5);
  destruct (Qltb s 400000) eqn:E6; try (apply Qltb_lt in E6); try (apply Qltb_ge in E6);
  try (exfalso; lra);
  intros H; simpl in H;
  repeat (destruct H as [H | H]; [injection H as <- <- <-|]); try contradiction;
  unfold inject_Z; (split; [intros F; try discriminate F; split; try exact I; lra
                           | intros [F1 F2]; try reflexivity; exfalso; lra]).
Qed.

Lemma bucket_of_is_a_key (s : Q) : In (bucket_of s) (map fst dist_init).
Proof.
  unfold bucket_of.
  repeat match goal with
         | |- context [Qltb s ?e] => destruct (Qltb s e)
         end; simpl; auto 10.
Qed.

Lemma distribution_keys (xs : list Q) :
  forall dist,
    map fst dist = map fst dist_init ->
    map fst (fold_left (fun d s => incr String.eqb (bucket_of s) d) xs dist) =
    map fst dist_init.
Proof.
  induction xs as [|x xs IH]; intros dist Hk; simpl.
  - exact Hk.
  - apply IH.
    destruct (keys_incr String.eqb String.eqb_eq (bucket_of x) dist)
      as [[_ E] | [N _]].
    + rewrite E. exact Hk.
    + exfalso. apply N. rewrite Hk. apply bucket_of_is_a_key.
Qed.

Lemma counter_get_dist_init (name : string) :
  counter_get String.eqb name dist_init = 0.
Proof.
  unfold dist_init. cbn [counter_get].
  repeat match goal with
         | |- context [String.eqb ?a ?b] => destruct (String.eqb a b)
         end; reflexivity.
Qed.

(** C3. Every representative value is counted in exactly one bucket: the
    bucket of the first of the ascending edges 100000 .. 400000 that the value
    is strictly less than, or the top bucket when there is none; in interval
    terms, the bucket whose lower edge it has reached and whose upper edge it
    has not. The range 100000..200000 in the baseline currency has the
    representative value 150000 and is counted in the bucket 150-200, whose
    lower edge is 150000; 99999, 100000 and 150000 fall in the buckets below
    100000, 100-150 and 150-200. *)
Theorem each_value_in_one_bucket :
  (forall s before e after,
     edge_buckets = before ++ e :: after ->
     (forall e', In e' before -> ~ (s < inject_Z (fst e'))%Q) ->
     (s < inject_Z (fst e))%Q ->
     bucket_of s = snd e) /\
  (forall s,
     (forall e, In e edge_buckets -> ~ (s < inject_Z (fst e))%Q) ->
     bucket_of s = top_bucket) /\
  (forall s lo hi name,
     In (lo, hi, name) bucket_bounds -> (bucket_of s = name <-> in_bucket lo hi s)) /\
  (forall values name,
     counter_get String.eqb name (get_salary_distribution values) =
     List.length (filter (fun s => String.eqb name (bucket_of s)) values)) /\
  (forall values,
     map fst (get_salary_distribution values) = map snd edge_buckets ++ [top_bucket]) /\
  listing_value midrange_listing = Some ((100000 + 200000) # 2)%Q /\
  ((100000 + 200000) # 2 == 150000)%Q /\
  result_distribution (analyze_salaries [midrange_listing]) =
    [ ("до 100к", 0); ("100-150к", 0); ("150-200к", 1); ("200-250к", 0);
      ("250-300к", 0); ("300-400к", 0); ("400к+", 0) ] /\
  In (Some 150000%Z, Some 200000%Z, "150-200к") bucket_bounds /\
  bucket_of 99999 = "до 100к" /\
  bucket_of 100000 = "100-150к" /\
  bucket_of 150000 = "150-200к".
Proof.
  refine (conj _ (conj _ (conj _ (conj _ (conj _ _))))).
  - intros s before e after Hsplit Hb He. rewrite bucket_of_first_edge, Hsplit.
    rewrite (find_first _ before after e); [reflexivity| |apply Qltb_lt, He].
    intros x Hx. apply not_true_is_false. intros F. apply Qltb_lt in F.
    exact (Hb x Hx F).
  - intros s Hall. rewrite bucket_of_first_edge, find_none; [reflexivity|].
    intros x Hx. apply not_true_is_false. intros F. apply Qltb_lt in F.
    exact (Hall x Hx F).
  - intros s lo hi name. apply bucket_of_interval.
  - intros values name. unfold get_salary_distribution.
    rewrite fold_distribution_get, counter_get_dist_init. reflexivity.
  - intros values. unfold get_salary_distribution.
    rewrite distribution_keys by reflexivity. reflexivity.
  - refine (conj eq_refl (conj eq_refl (conj eq_refl (conj _ (conj eq_refl (conj eq_refl eq_refl)))))).
    simpl. auto.
Qed.

Lemma each_value_in_one_bucket_witness :
  bucket_of 175000 = "150-200к" /\
  (bucket_of 175000 = "150-200к" <-> in_bucket (Some 150000%Z) (Some 200000%Z) 175000).
Proof.
  destruct each_value_in_one_bucket as (Hfirst & _ & Hint & _). split.
  - apply (Hfirst 175000%Q [(100000%Z, "до 100к"); (150000%Z, "100-150к")]
             (200000%Z, "150-200к")
             [(250000%Z, "200-250к"); (300000%Z, "250-300к"); (400000%Z, "300-400к")]
             eq_refl).
    + intros e' [<- | [<- | []]]; discriminate.
    + reflexivity.
  - apply Hint. right. right. left. reflexivity.
Defined.

(** ** Categories *)

Lemma total_count_firstn {K : Type} (n : nat) (c : list (K * nat)) :
  total_count (firstn n c) <= total_count c.
Proof.
  revert n. induction c as [|e c IH]; intros [|n]; simpl; try lia.
  specialize (IH n). lia.
Qed.

Lemma resolvable_truthy (x : field) :
  resolvable x = false <-> truthy_dict x = None /\ truthy_str x = None.
Proof.
  destruct x as [|[|a s]|[|e o]]; simpl; split; try tauto; try discriminate;
    intros [H1 H2]; discriminate.
Qed.

Lemma employment_name_resolvable (v : vacancy) :
  List.length (to_list (employment_name v)) =
  if resolvable (employment v) then 1 else 0.
Proof.
  unfold employment_name. destruct (employment v) as [|[|a s]|[|e o]]; reflexivity.
Qed.

Lemma schedule_name_resolvable (v : vacancy) :
  List.length (to_list (schedule_name v)) =
  if resolvable (schedule v) then 1 else 0.
Proof.
  unfold schedule_name. destruct (schedule v) as [|[|a s]|[|e o]]; reflexivity.
Qed.

Lemma length_flat_map_filter {V A : Type} (f : V -> list A) (p : V -> bool) (vs : list V) :
  (forall v, List.length (f v) = if p v then 1 else 0) ->
  List.length (flat_map f vs) = List.length (filter p vs).
Proof.
  intros H. induction vs as [|v vs IH]; simpl.
  - reflexivity.
  - rewrite length_app, H, IH. destruct (p v); reflexivity.
Qed.

Lemma flat_map_skip {V A : Type} (f : V -> list A) (pre post : list V) (v : V) :
  f v = [] -> flat_map f (pre ++ v :: post) = flat_map f (pre ++ post).
Proof. intros E. rewrite !flat_map_app. simpl. rewrite E. reflexivity. Qed.

(** C4, as amended. In the employment and schedule categories only listings
    with a resolvable value are counted: the counts sum to the number of such
    listings, and a listing whose field is absent leaves the result as it is
    without it. The employer category counts every listing: a listing without
    a resolvable employer is counted under the label for "unspecified", so
    the employer counts sum to the number of all listings (the top 20 to no
    more, and to exactly that when at most 20 employers are found). *)
Theorem category_counts_by_resolvable_value (vacancies : list vacancy) :
  total_count (analyze_employment vacancies) =
    List.length (filter (fun v => resolvable (employment v)) vacancies) /\
  total_count (analyze_schedule vacancies) =
    List.length (filter (fun v => resolvable (schedule v)) vacancies) /\
  (forall pre v post,
     resolvable (employment v) = false ->
     analyze_employment (pre ++ v :: post) = analyze_employment (pre ++ post)) /\
  (forall pre v post,
     resolvable (schedule v) = false ->
     analyze_schedule (pre ++ v :: post) = analyze_schedule (pre ++ post)) /\
  total_count (companies_counter vacancies) = List.length vacancies /\
  total_count (top_20 (analyze_companies vacancies)) <= List.length vacancies /\
  (unique (analyze_companies vacancies) <= 20 ->
   total_count (top_20 (analyze_companies vacancies)) = List.length vacancies) /\
  (forall v, resolvable (employer v) = false -> employer_name v = Some unspecified).
Proof.
  assert (Hc : total_count (companies_counter vacancies) = List.length vacancies).
  { unfold companies_counter. rewrite fold_incr_map, total_count_count_all, length_map.
    simpl. lia. }
  refine (conj _ (conj _ (conj _ (conj _ (conj Hc (conj _ (conj _ _))))))).
  - unfold analyze_employment, employment_counter.
    rewrite total_count_most_common, fold_count_optional, total_count_count_all.
    rewrite (length_flat_map_filter _ (fun v => resolvable (employment v))
               vacancies employment_name_resolvable).
    simpl. lia.
  - unfold analyze_schedule, schedule_counter.
    rewrite total_count_most_common, fold_count_optional, total_count_count_all.
    rewrite (length_flat_map_filter _ (fun v => resolvable (schedule v))
               vacancies schedule_name_resolvable).
    simpl. lia.
  - intros pre v post H. unfold analyze_employment, employment_counter.
    rewrite !fold_count_optional, flat_map_skip; [reflexivity|].
    pose proof (employment_name_resolvable v) as L. rewrite H in L.
    destruct (employment_name v); [discriminate L | reflexivity].
  - intros pre v post H. unfold analyze_schedule, schedule_counter.
    rewrite !fold_count_optional, flat_map_skip; [reflexivity|].
    pose proof (schedule_name_resolvable v) as L. rewrite H in L.
    destruct (schedule_name v); [discriminate L | reflexivity].
  - unfold analyze_companies, most_common_n. cbn [top_20].
    etransitivity; [apply total_count_firstn|].
    rewrite total_count_most_common. lia.
  - unfold analyze_companies, most_common_n. cbn [top_20 unique]. intros H.
    rewrite firstn_all2 by (rewrite length_most_common; exact H).
    rewrite total_count_most_common. exact Hc.
  - intros v H. apply resolvable_truthy in H. destruct H as [H1 H2].
    unfold employer_name. rewrite H1, H2. reflexivity.
Qed.

Lemma category_counts_by_resolvable_value_witness :
  analyze_employment ([blank] ++ blank :: []) = analyze_employment ([blank] ++ []) /\
  total_count (top_20 (analyze_companies [blank; blank])) = 2.
Proof.
  destruct (category_counts_by_resolvable_value [blank; blank])
    as (_ & _ & He & _ & _ & _ & Hc & _).
  split.
  - apply (He [blank] blank []). reflexivity.
  - apply Hc. simpl. repeat constructor.
Defined.

(** C4, as stated, fails for the employer category: a listing without an
    employer is counted, under the label for "unspecified", so the employer
    counts sum to 1 where no listing carries a resolvable employer. *)
Lemma absent_employer_is_counted :
  resolvable (employer blank) = false /\
  analyze_companies [blank] = mk_companies 1 [(Some unspecified, 1)] /\
  total_count (top_20 (analyze_companies [blank])) = 1 /\
  List.length (filter (fun v => resolvable (employer v)) [blank]) = 0.
Proof. refine (conj eq_refl (conj eq_refl (conj eq_refl eq_refl))). Qed.

(** ** Experience tiers *)

Lemma tier_name_resolve (v : vacancy) : tier_name v = resolve_tier (experience v).
Proof.
  unfold tier_name, resolve_tier, experience_code, get_or.
  destruct (experience v) as [|[|a s]|[|e o]]; simpl; try reflexivity.
  destruct (let (k, x) := e in if String.eqb k "id" then Some x else dict_get o "id")
    as [[code|]|]; reflexivity.
Qed.

(** C6, as amended. The experience field, an object with an [id] or a bare
    string code, resolves through the fixed table. In the per-tier salary
    grouping every unknown or absent code resolves to the "unspecified" tier.
    In the experience counts a code of the table is counted under its tier
    and a missing field, an empty value or an object without an [id] under
    "unspecified", while a code that is not in the table is counted under the
    code itself. *)
Theorem experience_resolves_through_table (v : vacancy) :
  tier_name v = resolve_tier (experience v) /\
  In (tier_name v) (map fst salary_by_exp_init) /\
  (forall code tier,
     experience_code (experience v) = Some code ->
     dict_get exp_map code = Some tier ->
     tier_name v = tier /\ experience_name v = Some tier) /\
  (forall code,
     experience_code (experience v) = Some code ->
     dict_get exp_map code = None ->
     tier_name v = unspecified /\ experience_name v = Some code) /\
  (no_experience_data (experience v) ->
     tier_name v = unspecified /\ experience_name v = Some unspecified).
Proof.
  refine (conj (tier_name_resolve v) (conj (tier_name_is_a_key v) _)).
  rewrite tier_name_resolve. unfold resolve_tier, experience_name, get_or.
  refine (conj _ (conj _ _)).
  - intros code tier Hc Ht. rewrite Hc, Ht. split; [reflexivity|].
    unfold experience_code in Hc.
    destruct (experience v) as [|[|a s]|[|e o]]; try discriminate Hc.
    + injection Hc as <-. cbn [truthy_dict truthy_str]. rewrite Ht. reflexivity.
    + cbn [truthy_dict]. destruct (dict_get (e :: o) "id") as [[c|]|];
        try discriminate Hc. injection Hc as <-. rewrite Ht. reflexivity.
  - intros code Hc Ht. rewrite Hc, Ht. split; [reflexivity|].
    unfold experience_code in Hc.
    destruct (experience v) as [|[|a s]|[|e o]]; try discriminate Hc.
    + injection Hc as <-. cbn [truthy_dict truthy_str]. rewrite Ht. reflexivity.
    + cbn [truthy_dict]. destruct (dict_get (e :: o) "id") as [[c|]|];
        try discriminate Hc. injection Hc as <-. rewrite Ht. reflexivity.
  - intros [E | [E | (o & E & Hid)]]; rewrite E; [split; reflexivity ..|].
    unfold experience_code. rewrite Hid. split; [reflexivity|].
    destruct o as [|e o]; [reflexivity|]. cbn [truthy_dict]. rewrite Hid. reflexivity.
Qed.

Lemma experience_resolves_through_table_witness :
  (tier_name (experienced (Nested [("id", Some "moreThan6")])) = "6+ лет" /\
   experience_name (experienced (Nested [("id", Some "moreThan6")])) = Some "6+ лет") /\
  (tier_name intern_listing = unspecified /\
   experience_name intern_listing = Some "intern") /\
  (tier_name blank = unspecified /\ experience_name blank = Some unspecified).
Proof.
  split; [|split].
  - destruct (experience_resolves_through_table
                (experienced (Nested [("id", Some "moreThan6")])))
      as (_ & _ & H & _).
    apply (H "moreThan6" "6+ лет"); reflexivity.
  - destruct (experience_resolves_through_table intern_listing) as (_ & _ & _ & H & _).
    apply (H "intern"); reflexivity.
  - destruct (experience_resolves_through_table blank) as (_ & _ & _ & _ & H).
    apply H. left. reflexivity.
Defined.

(** C6, as stated, fails in the experience counts: a listing with the bare
    code "intern", which is not in the table, is counted under "intern" and
    not under the "unspecified" tier the specification resolves it to. *)
Lemma unknown_code_is_counted_as_itself :
  resolve_tier (experience intern_listing) = unspecified /\
  tier_name intern_listing = unspecified /\
  analyze_experience [intern_listing] = [(Some "intern", 1)] /\
  experience_name intern_listing <> Some (resolve_tier (experience intern_listing)).
Proof.
  refine (conj eq_refl (conj eq_refl (conj eq_refl _))). discriminate.
Qed.

(** ** Skills *)

Lemma counter_get_count_all (key : string) (ks : list string) :
  forall c,
    counter_get String.eqb key (count_all String.eqb ks c) =
    counter_get String.eqb key c + count_occ string_dec ks key.
Proof.
  unfold count_all. induction ks as [|k ks IH]; intros c; simpl.
  - lia.
  - rewrite IH, counter_get_incr.
    destruct (string_dec k key) as [-> | N].
    + rewrite String.eqb_refl. lia.
    + destruct (String.eqb_spec key k); [congruence | lia].
Qed.

Lemma count_occ_map_filter {A : Type} (f : A -> string) (p : A -> bool)
  (l : list A) (key : string) :
  count_occ string_dec (map f (filter p l)) key <= count_occ string_dec (map f l) key.
Proof.
  induction l as [|a l IH]; simpl.
  - lia.
  - destruct (p a); simpl; destruct (string_dec (f a) key); lia.
Qed.

(** C5, at the failing input. The vocabulary lists "redis" twice (and
    "mongodb" and "postgresql"), so one listing that mentions redis once
    raises the count of REDIS by two. In general one listing raises the count
    of a key by the number of vocabulary entries with that key found in its
    text, which is at most the number of times the vocabulary lists the key:
    once for PYTHON, however often the text repeats the keyword. *)
Theorem duplicated_keyword_counted_twice :
  count_occ string_dec tech_skills "redis" = 2 /\
  extract_skills [redis_listing] = mk_skills [("REDIS", 2)] 1 /\
  (forall counter v key,
     counter_get String.eqb key (skill_step counter v) =
     counter_get String.eqb key counter + count_occ string_dec (skill_hits v) key) /\
  (forall v key,
     count_occ string_dec (skill_hits v) key <=
     count_occ string_dec (map upper tech_skills) key) /\
  count_occ string_dec (map upper tech_skills) "PYTHON" = 1 /\
  count_occ string_dec (map upper tech_skills) "REDIS" = 2 /\
  extract_skills [requiring "python python"] = mk_skills [("PYTHON", 1)] 1 /\
  extract_skills [requiring "python"; requiring "python"] = mk_skills [("PYTHON", 2)] 1.
Proof.
  refine (conj _ (conj _ (conj _ (conj _ _)))).
  - vm_compute. reflexivity.
  - vm_compute. reflexivity.
  - intros counter v key.
    rewrite skill_step_hits. apply counter_get_count_all.
  - intros v key. unfold skill_hits.
    destruct (truthy_dict (snippet v)); [apply count_occ_map_filter | apply Nat.le_0_l].
  - vm_compute. repeat split.
Qed.

(** ** Report assembly *)

(** C9. The empty input yields the explicit "no listings" summary, a value
    and not an exception; every other input yields the statistics of the
    sub-analyses with the number of listings, nothing else being checked. *)
Theorem empty_input_is_the_only_error :
  analyze_vacancies [] = ErrorSummary "Вакансии не найдены" /\
  (forall vacancies,
     (exists message, analyze_vacancies vacancies = ErrorSummary message) <->
     vacancies = []) /\
  (forall v rest,
     analyze_vacancies (v :: rest) =
     Summary (mk_summary
       (List.length (v :: rest))
       (analyze_salaries (v :: rest))
       (analyze_salary_by_experience (v :: rest))
       (analyze_companies (v :: rest))
       (analyze_experience (v :: rest))
       (analyze_employment (v :: rest))
       (analyze_schedule (v :: rest))
       (extract_skills (v :: rest)))).
Proof.
  refine (conj eq_refl (conj _ _)).
  - intros vs. split.
    + intros [message H]. destruct vs; [reflexivity | discriminate H].
    + intros ->. eexists. reflexivity.
  - intros v rest. reflexivity.
Qed.

(** * Further properties of the analytics engine *)

(** ** Tiers and the overall sample *)



Lemma fold_tier_step_keys (vs : list vacancy) :
  forall d, map fst (fold_left tier_step vs d) = map fst d.
Proof.
  induction vs as [|v vs IH]; intros d; simpl; [reflexivity|].
  rewrite IH. apply tier_step_keys.
Qed.

Lemma group_salaries_keys (vs : list vacancy) :
  map fst (group_salaries vs) = tier_names.
Proof. unfold group_salaries. apply fold_tier_step_keys. Qed.




Lemma listing_value_length (v : vacancy) :
  List.length (to_list (listing_value v)) = if states_bound v then 1 else 0.
Proof.
  unfold listing_value, converted_bounds, states_bound, range_value.
  destruct (salary v) as [sal|]; [|reflexivity].
  destruct (truthy_int_convert (currency_of sal) (s_from sal) (s_to sal)) as [Ef Et].
  rewrite Ef, Et, !truthy_int_scaled by apply rate_of_nonzero.
  destruct (truthy_int (s_from sal)), (truthy_int (s_to sal)); reflexivity.
Qed.

Lemma tier_names_nodup : NoDup tier_names.
Proof.
  unfold tier_names, salary_by_exp_init, unspecified. simpl.
  repeat constructor; simpl; intuition discriminate.
Qed.

Lemma get_or_of_entry (d : list (string * list Q)) (k : string) (l : list Q) :
  NoDup (map fst d) -> In (k, l) d -> tier_sample k d = l.
Proof.
  unfold tier_sample, get_or. induction d as [|[k' l'] d IH]; simpl.
  - intros _ [].
  - intros Hnd [E | Hin].
    + injection E as -> ->. rewrite String.eqb_refl. reflexivity.
    + inversion Hnd as [|? ? Hnotin Hnd']. subst.
      destruct (String.eqb_spec k' k) as [-> | N].
      * exfalso. apply Hnotin. apply (in_map fst) in Hin. exact Hin.
      * apply IH; assumption.
Qed.







(** ** When salary statistics exist *)

Lemma count_of_sample (vs : list vacancy) :
  List.length (salaries (collect_salaries vs)) = List.length (filter states_bound vs).
Proof.
  rewrite collect_salaries_values.
  apply length_flat_map_filter, listing_value_length.
Qed.


(** ** Order of the salary statistics *)

Lemma py_min_spec (xs : list Q) :
  forall m,
    In (py_min m xs) (m :: xs) /\
    forall y, In y (m :: xs) -> (py_min m xs <= y)%Q.
Proof.
  unfold py_min. induction xs as [|x xs IH]; intros m; simpl.
  - split; [left; reflexivity|]. intros y [<- | []]. apply Qle_refl.
  - destruct (Qltb x m) eqn:E.
    + apply Qltb_lt in E. destruct (IH x) as [Hin Hle]. split.
      * right. exact Hin.
      * intros y [<- | Hy].
        -- apply Qle_trans with x; [apply Hle; left; reflexivity | apply Qlt_le_weak, E].
        -- apply Hle, Hy.
    + apply Qltb_ge in E. destruct (IH m) as [Hin Hle]. split.
      * destruct Hin as [Hin | Hin]; [left; exact Hin | right; right; exact Hin].
      * intros y [<- | [<- | Hy]].
        -- apply Hle. left. reflexivity.
        -- apply Qle_trans with m; [apply Hle; left; reflexivity | exact E].
        -- apply Hle. right. exact Hy.
Qed.

Lemma py_max_spec (xs : list Q) :
  forall m,
    In (py_max m xs) (m :: xs) /\
    forall y, In y (m :: xs) -> (y <= py_max m xs)%Q.
Proof.
  unfold py_max. induction xs as [|x xs IH]; intros m; simpl.
  - split; [left; reflexivity|]. intros y [<- | []]. apply Qle_refl.
  - destruct (Qltb m x) eqn:E.
    + apply Qltb_lt in E. destruct (IH x) as [Hin Hle]. split.
      * right. exact Hin.
      * intros y [<- | Hy].
        -- apply Qle_trans with x; [apply Qlt_le_weak, E | apply Hle; left; reflexivity].
        -- apply Hle, Hy.
    + apply Qltb_ge in E. destruct (IH m) as [Hin Hle]. split.
      * destruct Hin as [Hin | Hin]; [left; exact Hin | right; right; exact Hin].
      * intros y [<- | [<- | Hy]].
        -- apply Hle. left. reflexivity.
        -- apply Qle_trans with m; [exact E | apply Hle; left; reflexivity].
        -- apply Hle. right. exact Hy.
Qed.

(** Truncation towards zero is monotone. *)
Lemma py_int_le (x y : Q) : (x <= y)%Q -> (py_int x <= py_int y)%Z.
Proof.
  destruct x as [a b], y as [c d]. unfold Qle, py_int. simpl. intros H.
  rewrite <- (Z.quot_mul_cancel_r a (Z.pos b) (Z.pos d)) by discriminate.
  rewrite <- (Z.quot_mul_cancel_r c (Z.pos d) (Z.pos b)) by discriminate.
  rewrite (Z.mul_comm (Z.pos d) (Z.pos b)).
  apply Z.quot_le_mono; [reflexivity | exact H].
Qed.

Lemma fold_sum_bounds (lo hi : Q) (xs : list Q) :
  (forall y, In y xs -> (lo <= y <= hi)%Q) ->
  forall acc,
    (acc + inject_Z (Z.of_nat (List.length xs)) * lo <= fold_left Qplus xs acc)%Q /\
    (fold_left Qplus xs acc <= acc + inject_Z (Z.of_nat (List.length xs)) * hi)%Q.
Proof.
  induction xs as [|x xs IH]; intros Hb acc.
  - cbn [fold_left List.length Z.of_nat]. change (inject_Z 0) with 0%Q. split; lra.
  - assert (Hx : (lo <= x <= hi)%Q) by (apply Hb; left; reflexivity).
    destruct (IH (fun y Hy => Hb y (or_intror Hy)) (acc + x)%Q) as [L U].
    cbn [fold_left List.length].
    rewrite Nat2Z.inj_succ, <- Z.add_1_r, inject_Z_plus.
    set (k := inject_Z (Z.of_nat (List.length xs))) in *.
    change (inject_Z 1) with 1%Q.
    split.
    + apply Qle_trans with (acc + x + k * lo)%Q; [|exact L].
      setoid_replace (acc + (k + 1) * lo)%Q with ((acc + lo) + k * lo)%Q by ring.
      lra.
    + apply Qle_trans with (acc + x + k * hi)%Q; [exact U|].
      setoid_replace (acc + (k + 1) * hi)%Q with ((acc + hi) + k * hi)%Q by ring.
      lra.
Qed.

Lemma np_mean_bounds (lo hi : Q) (xs : list Q) :
  xs <> [] ->
  (forall y, In y xs -> (lo <= y <= hi)%Q) ->
  (lo <= np_mean xs <= hi)%Q.
Proof.
  intros Hne Hb. unfold np_mean, Qsum.
  destruct (fold_sum_bounds lo hi xs Hb 0%Q) as [L U].
  assert (Hn : (0 < inject_Z (Z.of_nat (List.length xs)))%Q).
  { destruct xs; [contradiction|]. unfold Qlt. simpl. lia. }
  split.
  - apply Qle_shift_div_l; [exact Hn|].
    rewrite Qmult_comm. rewrite Qplus_0_l in L. exact L.
  - apply Qle_shift_div_r; [exact Hn|].
    rewrite Qmult_comm. rewrite Qplus_0_l in U. exact U.
Qed.

Lemma in_insert_asc (x y : Q) (l : list Q) :
  In y (insert_asc x l) -> y = x \/ In y l.
Proof.
  induction l as [|z l IH]; simpl.
  - intros [<- | []]. left. reflexivity.
  - destruct (Qltb z x); simpl.
    + intros [<- | H]; [right; left; reflexivity|].
      destruct (IH H) as [-> | H']; [left; reflexivity | right; right; exact H'].
    + intros [<- | H]; [left; reflexivity | right; exact H].
Qed.

Lemma in_sort_asc (y : Q) (l : list Q) : In y (sort_asc l) -> In y l.
Proof.
  induction l as [|x l IH]; simpl; [tauto|].
  intros H. apply in_insert_asc in H. destruct H as [-> | H]; [left; reflexivity|].
  right. apply IH, H.
Qed.

Lemma length_insert_asc (x : Q) (l : list Q) :
  List.length (insert_asc x l) = S (List.length l).
Proof.
  induction l as [|z l IH]; simpl; [reflexivity|].
  destruct (Qltb z x); simpl; [rewrite IH|]; reflexivity.
Qed.

Lemma length_sort_asc (l : list Q) : List.length (sort_asc l) = List.length l.
Proof.
  induction l as [|x l IH]; simpl; [reflexivity|].
  rewrite length_insert_asc, IH. reflexivity.
Qed.

Lemma np_median_bounds (lo hi : Q) (xs : list Q) :
  xs <> [] ->
  (forall y, In y xs -> (lo <= y <= hi)%Q) ->
  (lo <= np_median xs <= hi)%Q.
Proof.
  intros Hne Hb. unfold np_median.
  assert (Hn : 0 < List.length xs) by (destruct xs; [contradiction | simpl; lia]).
  assert (Hnth : forall i, i < List.length xs -> (lo <= nth i (sort_asc xs) 0 <= hi)%Q).
  { intros i Hi. apply Hb, in_sort_asc, nth_In. rewrite length_sort_asc. exact Hi. }
  assert (H2 : List.length xs / 2 < List.length xs) by (apply Nat.div_lt; lia).
  destruct (Nat.even (List.length xs)).
  - pose proof (Hnth (List.length xs / 2 - 1) ltac:(lia)) as A.
    pose proof (Hnth (List.length xs / 2) H2) as B.
    set (a := nth (List.length xs / 2 - 1) (sort_asc xs) 0%Q) in *.
    set (b := nth (List.length xs / 2) (sort_asc xs) 0%Q) in *.
    split.
    + apply Qle_shift_div_l; lra.
    + apply Qle_shift_div_r; lra.
  - apply Hnth, H2.
Qed.

Lemma value_in_sample (vs : list vacancy) (x : Q) :
  In x (salaries (collect_salaries vs)) <->
  exists v, In v vs /\ listing_value v = Some x.
Proof.
  rewrite collect_salaries_values, in_flat_map. split.
  - intros (v & Hv & Hx). exists v. split; [exact Hv|].
    destruct (listing_value v); simpl in Hx; [|destruct Hx].
    destruct Hx as [-> | []]. reflexivity.
  - intros (v & Hv & E). exists v. split; [exact Hv|]. rewrite E. left. reflexivity.
Qed.

(** X4. For listings whose amounts keep the floating-point sums exact, the
    salary statistics are ordered: the truncated minimum is at most the
    truncated mean and the truncated median, and these are at most the
    truncated maximum. The minimum and the maximum are the truncated
    representative values of two listings, and the representative value of
    every listing lies between them. *)
Theorem salary_statistics_are_ordered (vacancies : list vacancy) (stats : SalaryStats) :
  float_exact vacancies ->
  analyze_salaries vacancies = Available stats ->
  (min_salary stats <= avg stats <= max_salary stats)%Z /\
  (min_salary stats <= median stats <= max_salary stats)%Z /\
  (forall v x, In v vacancies -> listing_value v = Some x ->
     (min_salary stats <= py_int x <= max_salary stats)%Z) /\
  (exists v x, In v vacancies /\ listing_value v = Some x /\ min_salary stats = py_int x) /\
  (exists v x, In v vacancies /\ listing_value v = Some x /\ max_salary stats = py_int x).
Proof.
  unfold analyze_salaries. intros _ H.
  destruct (salaries (collect_salaries vacancies)) as [|s rest] eqn:E; [discriminate H|].
  injection H as <-. cbn [min_salary max_salary avg median].
  destruct (py_min_spec rest s) as [Imin Hmin].
  destruct (py_max_spec rest s) as [Imax Hmax].
  assert (Hb : forall y, In y (s :: rest) ->
                 (py_min s rest <= y <= py_max s rest)%Q)
    by (intros y Hy; split; [apply Hmin | apply Hmax]; exact Hy).
  destruct (np_mean_bounds _ _ (s :: rest) ltac:(discriminate) Hb) as [M1 M2].
  destruct (np_median_bounds _ _ (s :: rest) ltac:(discriminate) Hb) as [D1 D2].
  refine (conj _ (conj _ (conj _ (conj _ _)))).
  - split; apply py_int_le; assumption.
  - split; apply py_int_le; assumption.
  - intros v x Hv Hx.
    assert (Hin : In x (s :: rest)).
    { rewrite <- E. apply value_in_sample. exists v. tauto. }
    split; apply py_int_le; apply Hb, Hin.
  - rewrite <- E in Imin. apply value_in_sample in Imin.
    destruct Imin as (v & Hv & Hx). exists v, (py_min s rest). tauto.
  - rewrite <- E in Imax. apply value_in_sample in Imax.
    destruct Imax as (v & Hv & Hx). exists v, (py_max s rest). tauto.
Qed.

Lemma salary_statistics_are_ordered_witness :
  float_exact [midrange_listing; cheap_listing] /\
  exists stats,
    analyze_salaries [midrange_listing; cheap_listing] = Available stats /\
    (min_salary stats <= avg stats <= max_salary stats)%Z /\
    (min_salary stats <= median stats <= max_salary stats)%Z.
Proof.
  assert (Hexact : float_exact [midrange_listing; cheap_listing])
    by (unfold float_exact; vm_compute; reflexivity).
  split; [exact Hexact|].
  eexists. split; [reflexivity|].
  destruct (salary_statistics_are_ordered [midrange_listing; cheap_listing] _
              Hexact eq_refl)
    as (H1 & H2 & _).
  split; [exact H1 | exact H2].
Defined.

(** ** Counts are exact *)

Lemma insert_desc_perm {K : Type} (e : K * nat) (l : list (K * nat)) :
  Permutation (insert_desc e l) (e :: l).
Proof.
  induction l as [|e' l IH]; simpl.
  - apply Permutation_refl.
  - destruct (snd e <? snd e').
    + apply perm_trans with (e' :: e :: l); [apply perm_skip, IH | apply perm_swap].
    + apply Permutation_refl.
Qed.

Lemma most_common_perm {K : Type} (c : list (K * nat)) :
  Permutation (most_common c) c.
Proof.
  induction c as [|e c IH]; simpl.
  - apply perm_nil.
  - apply perm_trans with (e :: most_common c);
      [apply insert_desc_perm | apply perm_skip, IH].
Qed.

Lemma strictly_ordered_nodup {A : Type} (rank : A -> nat) (l : list A) :
  (forall a b, precedes a b l -> rank a < rank b) -> NoDup l.
Proof.
  induction l as [|a l IH]; intros H.
  - constructor.
  - constructor.
    + intros Hin.
      assert (F : rank a < rank a); [|lia].
      apply H, precedes_cons. left. split; [reflexivity | exact Hin].
    + apply IH. intros x y Hxy. apply H, precedes_cons. right. exact Hxy.
Qed.

Section ExactCounts.
Context {K : Type} (eqb : K -> K -> bool).
Hypothesis eqb_eq : forall x y, eqb x y = true <-> x = y.

Lemma counter_get_incr_gen (k k' : K) (c : list (K * nat)) :
  counter_get eqb k (incr eqb k' c) =
  counter_get eqb k c + (if eqb k k' then 1 else 0).
Proof.
  induction c as [|[k0 n] c IH]; cbn.
  - destruct (eqb k k'); reflexivity.
  - destruct (eqb k' k0) eqn:E1; cbn.
    + apply eqb_eq in E1. subst k0.
      destruct (eqb k k'); lia.
    + destruct (eqb k k0) eqn:E2.
      * apply eqb_eq in E2. subst k0.
        destruct (eqb k k') eqn:E3; [|lia].
        apply eqb_eq in E3. subst k'. rewrite (eqb_refl_true eqb eqb_eq) in E1.
        discriminate E1.
      * apply IH.
Qed.

Lemma counter_get_count_all_gen (k : K) (ks : list K) :
  forall c,
    counter_get eqb k (count_all eqb ks c) =
    counter_get eqb k c + occurrences eqb k ks.
Proof.
  unfold count_all, occurrences. induction ks as [|k' ks IH]; intros c; simpl.
  - lia.
  - rewrite IH, counter_get_incr_gen. destruct (eqb k k'); simpl; lia.
Qed.

Lemma occurrences_pos (k : K) (ks : list K) :
  0 < occurrences eqb k ks <-> In k ks.
Proof.
  unfold occurrences. induction ks as [|k' ks IH]; simpl.
  - split; [lia | tauto].
  - destruct (eqb k k') eqn:E; simpl.
    + apply eqb_eq in E. subst k'. split; [tauto | lia].
    + rewrite IH. split; [tauto|]. intros [-> | H]; [|exact H].
      rewrite (eqb_refl_true eqb eqb_eq) in E. discriminate E.
Qed.

Lemma counter_get_of_entry (k : K) (n : nat) (c : list (K * nat)) :
  NoDup (map fst c) -> In (k, n) c -> counter_get eqb k c = n.
Proof.
  induction c as [|[k' n'] c IH]; cbn.
  - intros _ [].
  - intros Hnd [E | Hin].
    + injection E as -> ->. rewrite (eqb_refl_true eqb eqb_eq). reflexivity.
    + inversion Hnd as [|? ? Hnotin Hnd']. subst.
      destruct (eqb k k') eqn:E.
      * apply eqb_eq in E. subst k'. exfalso. apply Hnotin.
        apply (in_map fst) in Hin. exact Hin.
      * apply IH; assumption.
Qed.

Lemma count_all_keys (ks : list K) :
  NoDup (map fst (count_all eqb ks [])) /\
  forall k, In k (map fst (count_all eqb ks [])) <-> In k ks.
Proof.
  assert (Hinv : keys_in_first_seen_order eqb [] []).
  { split; [intros k; simpl; tauto|]. intros a b F. now apply precedes_nil in F. }
  apply (count_all_keeps_first_seen_order eqb eqb_eq ks) in Hinv. simpl in Hinv.
  destruct Hinv as [Hmem Hord]. split; [|exact Hmem].
  apply (strictly_ordered_nodup (fun k => first_seen eqb k ks)), Hord.
Qed.

(** The entries of a counter are the labels counted, each with the number of
    times it was counted. *)
Lemma count_all_entries (ks : list K) (k : K) (n : nat) :
  In (k, n) (count_all eqb ks []) <-> n = occurrences eqb k ks /\ 0 < n.
Proof.
  destruct (count_all_keys ks) as [Hnd Hmem].
  pose proof (counter_get_count_all_gen k ks []) as G. simpl in G.
  split.
  - intros Hin. pose proof (counter_get_of_entry k n _ Hnd Hin) as E.
    rewrite E in G. split; [exact G|]. rewrite G. apply occurrences_pos, Hmem.
    apply (in_map fst) in Hin. exact Hin.
  - intros [-> Hpos]. apply occurrences_pos, Hmem, in_map_iff in Hpos.
    destruct Hpos as ([k' n] & Ek & Hin). simpl in Ek. subst k'.
    rewrite <- G, (counter_get_of_entry k n _ Hnd Hin). exact Hin.
Qed.

Lemma most_common_entries (ks : list K) (k : K) (n : nat) :
  In (k, n) (most_common (count_all eqb ks [])) <->
  n = occurrences eqb k ks /\ 0 < n.
Proof.
  rewrite <- count_all_entries. split; apply Permutation_in.
  - apply most_common_perm.
  - apply Permutation_sym, most_common_perm.
Qed.

Lemma most_common_keys_nodup (ks : list K) :
  NoDup (map fst (most_common (count_all eqb ks []))).
Proof.
  destruct (count_all_keys ks) as [Hnd _].
  apply (Permutation_NoDup (l := map fst (count_all eqb ks []))); [|exact Hnd].
  apply Permutation_map, Permutation_sym, most_common_perm.
Qed.

Lemma in_firstn {A : Type} (n : nat) (a : A) (l : list A) :
  In a (firstn n l) -> In a l.
Proof.
  intros H. rewrite <- (firstn_skipn n l). apply in_or_app. left. exact H.
Qed.

Lemma in_firstn_skipn_precedes {A : Type} (n : nat) (a b : A) (l : list A) :
  In a (firstn n l) -> In b (skipn n l) -> precedes a b l.
Proof.
  intros Ha Hb. apply in_split in Ha, Hb.
  destruct Ha as (l1 & l2 & Ea). destruct Hb as (l3 & l4 & Eb).
  exists l1, (l2 ++ l3), l4.
  pose proof (firstn_skipn n l) as E. rewrite Ea, Eb in E. rewrite <- E.
  rewrite <- !app_assoc. reflexivity.
Qed.

(** A top-[n] list holds exact counts, and no label it leaves out was counted
    more often than a label it keeps. *)
Lemma most_common_n_is_top (n : nat) (ks : list K) :
  (forall k m, In (k, m) (most_common_n n (count_all eqb ks [])) ->
               m = occurrences eqb k ks /\ 0 < m) /\
  (forall k m k',
     In (k, m) (most_common_n n (count_all eqb ks [])) ->
     ~ In k' (map fst (most_common_n n (count_all eqb ks []))) ->
     occurrences eqb k' ks <= m).
Proof.
  unfold most_common_n. split.
  - intros k m Hin. apply most_common_entries. apply (in_firstn n), Hin.
  - intros k m k' Hin Hout.
    destruct (Nat.eq_dec (occurrences eqb k' ks) 0) as [Z | NZ]; [lia|].
    assert (Hk' : In (k', occurrences eqb k' ks) (most_common (count_all eqb ks [])))
      by (apply most_common_entries; split; [reflexivity | lia]).
    rewrite <- (firstn_skipn n (most_common (count_all eqb ks []))) in Hk'.
    apply in_app_or in Hk'. destruct Hk' as [Hk' | Hk'].
    + exfalso. apply Hout. apply (in_map fst) in Hk'. exact Hk'.
    + pose proof (in_firstn_skipn_precedes n _ _ _ Hin Hk') as P.
      apply most_common_stable in P. simpl in P. tauto.
Qed.

End ExactCounts.

(** X5. The experience, employment and schedule results hold exactly one
    entry for each label counted, with the number of listings that carry it;
    the experience result counts every listing. *)
Theorem category_counts_are_exact (vacancies : list vacancy) :
  (forall l n, In (l, n) (analyze_experience vacancies) <->
     n = occurrences label_eqb l (experience_labels vacancies) /\ 0 < n) /\
  (forall l n, In (l, n) (analyze_employment vacancies) <->
     n = occurrences label_eqb l (employment_labels vacancies) /\ 0 < n) /\
  (forall l n, In (l, n) (analyze_schedule vacancies) <->
     n = occurrences label_eqb l (schedule_labels vacancies) /\ 0 < n) /\
  NoDup (map fst (analyze_experience vacancies)) /\
  NoDup (map fst (analyze_employment vacancies)) /\
  NoDup (map fst (analyze_schedule vacancies)) /\
  total_count (analyze_experience vacancies) = List.length vacancies.
Proof.
  unfold analyze_experience, experience_counter, analyze_employment,
    employment_counter, analyze_schedule, schedule_counter.
  rewrite fold_incr_map, !fold_count_optional.
  fold (experience_labels vacancies) (employment_labels vacancies)
    (schedule_labels vacancies).
  refine (conj _ (conj _ (conj _ (conj _ (conj _ (conj _ _)))))).
  - intros l n. apply most_common_entries, label_eqb_eq.
  - intros l n. apply most_common_entries, label_eqb_eq.
  - intros l n. apply most_common_entries, label_eqb_eq.
  - apply most_common_keys_nodup, label_eqb_eq.
  - apply most_common_keys_nodup, label_eqb_eq.
  - apply most_common_keys_nodup, label_eqb_eq.
  - rewrite total_count_most_common, total_count_count_all.
    unfold experience_labels. rewrite length_map. simpl. lia.
Qed.

Lemma length_distinct {K : Type} (eqb : K -> K -> bool)
  (dec : forall a b : K, {a = b} + {a <> b}) (ks : list K) :
  (forall x y, eqb x y = true <-> x = y) ->
  List.length (count_all eqb ks []) = List.length (nodup dec ks).
Proof.
  intros eqb_eq. destruct (count_all_keys eqb eqb_eq ks) as [Hnd Hmem].
  rewrite <- (length_map fst). apply Permutation_length, NoDup_Permutation.
  - exact Hnd.
  - apply NoDup_nodup.
  - intros k. rewrite Hmem, nodup_In. reflexivity.
Qed.

(** X6. The employer top 20 and the skill top 20 hold at most 20 entries,
    each with the exact number of times its label was counted, and no label
    left out was counted more often than a label kept; [unique] and
    [total_found] are the numbers of distinct labels counted. *)
Theorem top_lists_keep_the_most_frequent (vacancies : list vacancy) :
  (forall l n, In (l, n) (top_20 (analyze_companies vacancies)) ->
     n = occurrences label_eqb l (employer_labels vacancies) /\ 0 < n) /\
  (forall l n l',
     In (l, n) (top_20 (analyze_companies vacancies)) ->
     ~ In l' (map fst (top_20 (analyze_companies vacancies))) ->
     occurrences label_eqb l' (employer_labels vacancies) <= n) /\
  List.length (top_20 (analyze_companies vacancies)) =
    Nat.min 20 (unique (analyze_companies vacancies)) /\
  unique (analyze_companies vacancies) =
    List.length (nodup label_dec (employer_labels vacancies)) /\
  (forall key n, In (key, n) (skills_top_20 (extract_skills vacancies)) ->
     n = occurrences String.eqb key (skill_labels vacancies) /\ 0 < n) /\
  (forall key n key',
     In (key, n) (skills_top_20 (extract_skills vacancies)) ->
     ~ In key' (map fst (skills_top_20 (extract_skills vacancies))) ->
     occurrences String.eqb key' (skill_labels vacancies) <= n) /\
  List.length (skills_top_20 (extract_skills vacancies)) =
    Nat.min 20 (total_found (extract_skills vacancies)) /\
  total_found (extract_skills vacancies) =
    List.length (nodup string_dec (skill_labels vacancies)).
Proof.
  unfold analyze_companies, companies_counter, extract_skills, skill_counter.
  cbn [top_20 unique skills_top_20 total_found].
  rewrite fold_incr_map, skill_counter_count_all.
  fold (employer_labels vacancies).
  destruct (most_common_n_is_top label_eqb label_eqb_eq 20 (employer_labels vacancies))
    as [E1 E2].
  destruct (most_common_n_is_top String.eqb String.eqb_eq 20 (skill_labels vacancies))
    as [S1 S2].
  refine (conj E1 (conj E2 (conj _ (conj _ (conj S1 (conj S2 (conj _ _))))))).
  - unfold most_common_n. rewrite length_firstn, length_most_common. reflexivity.
  - apply length_distinct, label_eqb_eq.
  - unfold most_common_n. rewrite length_firstn, length_most_common. reflexivity.
  - apply length_distinct, String.eqb_eq.
Qed.

Lemma top_lists_keep_the_most_frequent_witness :
  2 = occurrences label_eqb (Some "B") (employer_labels tie_listings) /\ 0 < 2.
Proof.
  destruct (top_lists_keep_the_most_frequent tie_listings) as [H _].
  apply (H (Some "B") 2). left. reflexivity.
Defined.

(** ** Skills are vocabulary substrings *)






(** ** Currency counts *)

Lemma currency_labels_length (vs : list vacancy) :
  List.length (currency_labels vs) = List.length (filter has_salary vs).
Proof.
  unfold currency_labels. apply length_flat_map_filter.
  intros v. unfold has_salary. destruct (salary v); reflexivity.
Qed.

(** X8. The currency counts are counts of salary objects by their original
    code ("RUR" when none is given), whether or not the object states a usable
    bound: each reported entry holds the exact number of such listings, at
    most five entries are reported, and [count] never exceeds the number of
    salary objects. *)
Theorem currency_counts_by_salary_object (vacancies : list vacancy) (stats : SalaryStats) :
  analyze_salaries vacancies = Available stats ->
  (forall code n, In (code, n) (currencies stats) ->
     n = occurrences String.eqb code (currency_labels vacancies) /\ 0 < n) /\
  (forall code n code',
     In (code, n) (currencies stats) ->
     ~ In code' (map fst (currencies stats)) ->
     occurrences String.eqb code' (currency_labels vacancies) <= n) /\
  List.length (currencies stats) <= 5 /\
  total_count (currency_stats (collect_salaries vacancies)) =
    List.length (filter has_salary vacancies) /\
  total_count (currencies stats) <= List.length (filter has_salary vacancies) /\
  count stats <= List.length (filter has_salary vacancies).
Proof.
  intros H.
  assert (Ec : currencies stats =
               most_common_n 5 (count_all String.eqb (currency_labels vacancies) [])).
  { unfold analyze_salaries in H.
    destruct (salaries (collect_salaries vacancies)); [discriminate H|].
    injection H as <-. cbn [currencies]. unfold collect_salaries.
    rewrite currency_stats_count_all. reflexivity. }
  assert (Et : total_count (currency_stats (collect_salaries vacancies)) =
               List.length (filter has_salary vacancies)).
  { unfold collect_salaries.
    rewrite currency_stats_count_all, total_count_count_all, currency_labels_length.
    simpl. lia. }
  destruct (most_common_n_is_top String.eqb String.eqb_eq 5 (currency_labels vacancies))
    as [E1 E2].
  rewrite Ec.
  refine (conj E1 (conj E2 (conj _ (conj Et (conj _ _))))).
  - unfold most_common_n. rewrite length_firstn. lia.
  - unfold most_common_n. etransitivity; [apply total_count_firstn|].
    rewrite total_count_most_common, total_count_count_all, currency_labels_length.
    simpl. lia.
  - destruct (available_stats _ _ H) as [-> _]. rewrite count_of_sample.
    clear. induction vacancies as [|v vs IH]; simpl; [lia|].
    assert (Hv : states_bound v = true -> has_salary v = true).
    { unfold states_bound, has_salary. destruct (salary v); [reflexivity | discriminate]. }
    destruct (states_bound v), (has_salary v); simpl; try lia.
    all: discriminate (Hv eq_refl).
Qed.

Lemma currency_counts_by_salary_object_witness :
  exists stats,
    analyze_salaries [midrange_listing; unpriced_usd_listing] = Available stats /\
    currencies stats = [("RUR", 1); ("USD", 1)] /\
    count stats = 1 /\
    count stats <= List.length (filter has_salary [midrange_listing; unpriced_usd_listing]).
Proof.
  eexists. split; [reflexivity|]. split; [reflexivity|]. split; [reflexivity|].
  destruct (currency_counts_by_salary_object
              [midrange_listing; unpriced_usd_listing] _ eq_refl)
    as (_ & _ & _ & _ & _ & H).
  exact H.
Defined.

(** ** The statistics do not depend on the order of the listings *)

Lemma perm_filter_length {A : Type} (p : A -> bool) (xs ys : list A) :
  Permutation xs ys -> List.length (filter p xs) = List.length (filter p ys).
Proof.
  induction 1 as [|x xs ys _ IH|x y xs|xs ys zs _ IH1 _ IH2]; simpl.
  - reflexivity.
  - destruct (p x); simpl; rewrite IH; reflexivity.
  - destruct (p x), (p y); reflexivity.
  - rewrite IH1. exact IH2.
Qed.

Lemma py_int_eq (x y : Q) : (x == y)%Q -> py_int x = py_int y.
Proof.
  intros E. apply Z.le_antisymm; apply py_int_le; rewrite E; apply Qle_refl.
Qed.

Lemma fold_sum_acc (xs : list Q) :
  forall acc acc', (acc == acc')%Q ->
    (fold_left Qplus xs acc == fold_left Qplus xs acc')%Q.
Proof.
  induction xs as [|x xs IH]; intros acc acc' E; simpl; [exact E|].
  apply IH. rewrite E. reflexivity.
Qed.

Lemma fold_sum_perm (xs ys : list Q) :
  Permutation xs ys ->
  forall acc, (fold_left Qplus xs acc == fold_left Qplus ys acc)%Q.
Proof.
  induction 1 as [|x xs ys _ IH|x y xs|xs ys zs _ IH1 _ IH2]; intros acc; simpl.
  - reflexivity.
  - apply IH.
  - apply fold_sum_acc. ring.
  - rewrite IH1. apply IH2.
Qed.

Lemma np_mean_perm (xs ys : list Q) :
  Permutation xs ys -> (np_mean xs == np_mean ys)%Q.
Proof.
  intros P. unfold np_mean, Qsum.
  rewrite (Permutation_length P), (fold_sum_perm xs ys P 0%Q). reflexivity.
Qed.

Lemma py_min_perm (s s' : Q) (r r' : list Q) :
  Permutation (s :: r) (s' :: r') -> py_int (py_min s r) = py_int (py_min s' r').
Proof.
  intros P. destruct (py_min_spec r s) as [I1 L1]. destruct (py_min_spec r' s') as [I2 L2].
  apply Z.le_antisymm; apply py_int_le.
  - apply L1. apply (Permutation_in _ (Permutation_sym P)), I2.
  - apply L2. apply (Permutation_in _ P), I1.
Qed.

Lemma py_max_perm (s s' : Q) (r r' : list Q) :
  Permutation (s :: r) (s' :: r') -> py_int (py_max s r) = py_int (py_max s' r').
Proof.
  intros P. destruct (py_max_spec r s) as [I1 L1]. destruct (py_max_spec r' s') as [I2 L2].
  apply Z.le_antisymm; apply py_int_le.
  - apply L2. apply (Permutation_in _ P), I1.
  - apply L1. apply (Permutation_in _ (Permutation_sym P)), I2.
Qed.

(** *** The sorted sample *)

Lemma insert_asc_forall (P : Q -> Prop) (x : Q) (l : list Q) :
  P x -> Forall P l -> Forall P (insert_asc x l).
Proof.
  intros Hx. induction l as [|y l IH]; intros Hl; simpl.
  - constructor; [exact Hx | constructor].
  - inversion Hl as [|? ? Hy Hl']. subst. destruct (Qltb y x).
    + constructor; [exact Hy | apply IH, Hl'].
    + constructor; [exact Hx | exact Hl].
Qed.

Lemma insert_asc_sorted (x : Q) (l : list Q) :
  StronglySorted Qle l -> StronglySorted Qle (insert_asc x l).
Proof.
  induction l as [|y l IH]; intros Hs; simpl.
  - constructor; constructor.
  - apply StronglySorted_inv in Hs. destruct Hs as [Hs Hy].
    destruct (Qltb y x) eqn:E.
    + apply Qltb_lt in E. constructor; [apply IH, Hs|].
      apply insert_asc_forall; [apply Qlt_le_weak, E | exact Hy].
    + apply Qltb_ge in E. constructor.
      * constructor; assumption.
      * constructor; [exact E|].
        apply (Forall_impl (Qle x)) in Hy; [exact Hy|].
        intros z Hz. apply Qle_trans with y; assumption.
Qed.

Lemma sort_asc_sorted (l : list Q) : StronglySorted Qle (sort_asc l).
Proof.
  induction l as [|x l IH]; simpl; [constructor | apply insert_asc_sorted, IH].
Qed.

Lemma insert_asc_perm (x : Q) (l : list Q) : Permutation (insert_asc x l) (x :: l).
Proof.
  induction l as [|y l IH]; simpl.
  - apply Permutation_refl.
  - destruct (Qltb y x).
    + apply perm_trans with (y :: x :: l); [apply perm_skip, IH | apply perm_swap].
    + apply Permutation_refl.
Qed.

Lemma sort_asc_perm (l : list Q) : Permutation (sort_asc l) l.
Proof.
  induction l as [|x l IH]; simpl.
  - apply perm_nil.
  - apply perm_trans with (x :: sort_asc l); [apply insert_asc_perm | apply perm_skip, IH].
Qed.

(** In a sorted list the value at position [i] has at most [i] values below
    it and more than [i] values not above it. *)
Lemma sorted_nth_rank (l : list Q) :
  StronglySorted Qle l ->
  forall i, i < List.length l ->
    count_below (nth i l 0%Q) l <= i /\ i < count_up_to (nth i l 0%Q) l.
Proof.
  unfold count_below, count_up_to.
  induction 1 as [|a l Hs IH Ha]; intros i Hi; simpl in Hi; [lia|].
  destruct i as [|i]; cbn [nth filter].
  - assert (E1 : Qltb a a = false) by (apply Qltb_ge, Qle_refl).
    rewrite E1. cbn [negb List.length]. split; [|lia].
    assert (E : filter (fun x => Qltb x a) l = []); [|rewrite E; simpl; lia].
    clear -Ha. induction Ha as [|y l Hy _ IHl]; simpl; [reflexivity|].
    apply Qltb_ge in Hy. rewrite Hy. exact IHl.
  - destruct (IH i ltac:(lia)) as [B U].
    assert (Hle : (a <= nth i l 0)%Q).
    { rewrite Forall_forall in Ha. apply Ha, nth_In. lia. }
    apply Qltb_ge in Hle. rewrite Hle. cbn [negb List.length].
    destruct (Qltb a (nth i l 0%Q)); simpl; lia.
Qed.

Lemma filter_length_le {A : Type} (p q : A -> bool) (l : list A) :
  (forall x, p x = true -> q x = true) ->
  List.length (filter p l) <= List.length (filter q l).
Proof.
  intros H. induction l as [|x l IH]; simpl; [lia|].
  destruct (p x) eqn:E.
  - rewrite (H x E). simpl. lia.
  - destruct (q x); simpl; lia.
Qed.

Lemma rank_unique (xs : list Q) (i : nat) (v w : Q) :
  count_below v xs <= i < count_up_to v xs ->
  count_below w xs <= i < count_up_to w xs ->
  (v == w)%Q.
Proof.
  unfold count_below, count_up_to. intros [Bv Uv] [Bw Uw].
  apply Qle_antisym; apply Qnot_lt_le; intros F.
  - assert (L : List.length (filter (fun x => negb (Qltb w x)) xs)
                <= List.length (filter (fun x => Qltb x v) xs)); [|lia].
    apply filter_length_le. intros x Hx. apply negb_true_iff, Qltb_ge in Hx.
    apply Qltb_lt. apply Qle_lt_trans with w; assumption.
  - assert (L : List.length (filter (fun x => negb (Qltb v x)) xs)
                <= List.length (filter (fun x => Qltb x w) xs)); [|lia].
    apply filter_length_le. intros x Hx. apply negb_true_iff, Qltb_ge in Hx.
    apply Qltb_lt. apply Qle_lt_trans with v; assumption.
Qed.

Lemma sorted_nth_perm (xs ys : list Q) (i : nat) :
  Permutation xs ys -> i < List.length xs ->
  (nth i (sort_asc xs) 0 == nth i (sort_asc ys) 0)%Q.
Proof.
  intros P Hi.
  assert (Pxs : Permutation (sort_asc xs) xs) by apply sort_asc_perm.
  assert (Pys : Permutation (sort_asc ys) xs)
    by (apply perm_trans with ys; [apply sort_asc_perm | apply Permutation_sym, P]).
  pose proof (sorted_nth_rank _ (sort_asc_sorted xs) i) as Rx.
  pose proof (sorted_nth_rank _ (sort_asc_sorted ys) i) as Ry.
  rewrite (Permutation_length Pxs) in Rx. rewrite (Permutation_length Pys) in Ry.
  specialize (Rx Hi). specialize (Ry Hi).
  unfold count_below, count_up_to in Rx, Ry.
  rewrite !(perm_filter_length _ _ _ Pxs) in Rx.
  rewrite !(perm_filter_length _ _ _ Pys) in Ry.
  apply (rank_unique xs i); assumption.
Qed.

Lemma np_median_perm (xs ys : list Q) :
  Permutation xs ys -> (np_median xs == np_median ys)%Q.
Proof.
  intros P. destruct xs as [|x xs].
  - apply Permutation_nil in P. subst ys. reflexivity.
  - unfold np_median. rewrite <- (Permutation_length P).
    set (n := List.length (x :: xs)).
    assert (Hn : 0 < n) by (unfold n; simpl; lia).
    assert (H2 : n / 2 < n) by (apply Nat.div_lt; lia).
    destruct (Nat.even n).
    + rewrite (sorted_nth_perm _ _ (n / 2 - 1) P) by (fold n; lia).
      rewrite (sorted_nth_perm _ _ (n / 2) P) by exact H2.
      reflexivity.
    + apply sorted_nth_perm; assumption.
Qed.

Lemma tier_entry_perm (name : string) (l l' : list Q) :
  Permutation l l' -> tier_entry (name, l) = tier_entry (name, l').
Proof.
  intros P. unfold tier_entry. cbn [fst snd].
  destruct l as [|s r], l' as [|s' r'].
  - reflexivity.
  - apply Permutation_nil in P. discriminate P.
  - apply Permutation_sym, Permutation_nil in P. discriminate P.
  - rewrite (Permutation_length P), (py_min_perm _ _ _ _ P), (py_max_perm _ _ _ _ P).
    rewrite (py_int_eq _ _ (np_mean_perm _ _ P)), (py_int_eq _ _ (np_median_perm _ _ P)).
    reflexivity.
Qed.

Lemma dict_by_keys (d : list (string * list Q)) :
  NoDup (map fst d) ->
  d = map (fun name => (name, tier_sample name d)) (map fst d).
Proof.
  intros Hnd. rewrite map_map.
  rewrite <- (map_id d) at 1. apply map_ext_in. intros [k l] Hin. simpl.
  rewrite (get_or_of_entry d k l Hnd Hin). reflexivity.
Qed.

Lemma assoc_by_keys (c : list (string * nat)) :
  NoDup (map fst c) ->
  c = map (fun name => (name, counter_get String.eqb name c)) (map fst c).
Proof.
  intros Hnd. rewrite map_map.
  rewrite <- (map_id c) at 1. apply map_ext_in. intros [k n] Hin. simpl.
  rewrite (counter_get_of_entry String.eqb String.eqb_eq k n c Hnd Hin). reflexivity.
Qed.

(** The histogram in closed form: one entry per bucket, in the fixed order,
    with the number of values of that bucket. *)
Lemma distribution_closed_form (xs : list Q) :
  get_salary_distribution xs =
  map (fun name =>
         (name, List.length (filter (fun s => String.eqb name (bucket_of s)) xs)))
      (map fst dist_init).
Proof.
  assert (Hk : map fst (get_salary_distribution xs) = map fst dist_init)
    by (apply distribution_keys; reflexivity).
  assert (Hnd : NoDup (map fst (get_salary_distribution xs))).
  { rewrite Hk. unfold dist_init. simpl. repeat constructor; simpl; intuition discriminate. }
  rewrite (assoc_by_keys _ Hnd) at 1. rewrite Hk. apply map_ext. intros name.
  unfold get_salary_distribution.
  rewrite fold_distribution_get, counter_get_dist_init. reflexivity.
Qed.

Lemma mean_of_ints_perm (xs ys : list Z) :
  Permutation xs ys -> mean_of_ints xs = mean_of_ints ys.
Proof.
  intros P. unfold mean_of_ints. destruct xs as [|x xs], ys as [|y ys].
  - reflexivity.
  - apply Permutation_nil in P. discriminate P.
  - apply Permutation_sym, Permutation_nil in P. discriminate P.
  - f_equal. apply py_int_eq, np_mean_perm, Permutation_map, P.
Qed.

Lemma collect_from_list_values (vs : list vacancy) :
  salary_from_list (collect_salaries vs) =
  flat_map (fun v => to_list (truthy_int (fst (converted_bounds v)))) vs.
Proof. unfold collect_salaries. rewrite fold_from_list. reflexivity. Qed.

Lemma collect_to_list_values (vs : list vacancy) :
  salary_to_list (collect_salaries vs) =
  flat_map (fun v => to_list (truthy_int (snd (converted_bounds v)))) vs.
Proof. unfold collect_salaries. rewrite fold_to_list. reflexivity. Qed.

(** X9. For listings whose amounts keep the floating-point sums exact, the
    salary statistics do not depend on the order of the listings: for two
    orderings of the same listings, availability, [count], [min], [max], the
    truncated mean and median, the means of the lower and of the upper
    bounds and the histogram are the same, and so is the whole per-tier
    result. (The currency counts are ranked and may differ in the order of
    ties.) *)
Theorem salary_statistics_ignore_order (vacancies vacancies' : list vacancy) :
  float_exact vacancies ->
  Permutation vacancies vacancies' ->
  match analyze_salaries vacancies, analyze_salaries vacancies' with
  | Available s, Available s' =>
      count s = count s' /\
      min_salary s = min_salary s' /\
      max_salary s = max_salary s' /\
      avg s = avg s' /\
      median s = median s' /\
      from_avg s = from_avg s' /\
      to_avg s = to_avg s' /\
      distribution s = distribution s'
  | Unavailable m, Unavailable m' => m = m'
  | _, _ => False
  end /\
  analyze_salary_by_experience vacancies = analyze_salary_by_experience vacancies'.
Proof.
  intros _ P. split.
  - assert (Ps : Permutation (salaries (collect_salaries vacancies))
                   (salaries (collect_salaries vacancies')))
      by (rewrite !collect_salaries_values; apply Permutation_flat_map, P).
    assert (Pf : Permutation (salary_from_list (collect_salaries vacancies))
                   (salary_from_list (collect_salaries vacancies')))
      by (rewrite !collect_from_list_values; apply Permutation_flat_map, P).
    assert (Pt : Permutation (salary_to_list (collect_salaries vacancies))
                   (salary_to_list (collect_salaries vacancies')))
      by (rewrite !collect_to_list_values; apply Permutation_flat_map, P).
    unfold analyze_salaries.
    rewrite (mean_of_ints_perm _ _ Pf), (mean_of_ints_perm _ _ Pt).
    rewrite !distribution_closed_form.
    rewrite (py_int_eq _ _ (np_mean_perm _ _ Ps)), (py_int_eq _ _ (np_median_perm _ _ Ps)).
    rewrite (Permutation_length Ps).
    assert (Hd : forall name,
              List.length (filter (fun s => String.eqb name (bucket_of s))
                             (salaries (collect_salaries vacancies))) =
              List.length (filter (fun s => String.eqb name (bucket_of s))
                             (salaries (collect_salaries vacancies'))))
      by (intros name; apply perm_filter_length, Ps).
    destruct (salaries (collect_salaries vacancies)) as [|s r],
             (salaries (collect_salaries vacancies')) as [|s' r'].
    + reflexivity.
    + apply Permutation_nil in Ps. discriminate Ps.
    + apply Permutation_sym, Permutation_nil in Ps. discriminate Ps.
    + cbn [count min_salary max_salary avg median from_avg to_avg distribution].
      rewrite (py_min_perm _ _ _ _ Ps), (py_max_perm _ _ _ _ Ps).
      repeat (split; [reflexivity|]).
      apply map_ext. intros name. rewrite Hd. reflexivity.
  - unfold analyze_salary_by_experience.
    pose proof (group_salaries_keys vacancies) as K.
    pose proof (group_salaries_keys vacancies') as K'.
    rewrite (dict_by_keys (group_salaries vacancies))
      by (rewrite K; apply tier_names_nodup).
    rewrite (dict_by_keys (group_salaries vacancies'))
      by (rewrite K'; apply tier_names_nodup).
    rewrite K, K', !flat_map_concat_map, !map_map. f_equal.
    apply map_ext. intros name. apply tier_entry_perm.
    rewrite !group_salaries_values. apply Permutation_flat_map, P.
Qed.

Lemma salary_statistics_ignore_order_witness :
  float_exact [midrange_listing; cheap_listing] /\
  analyze_salary_by_experience [midrange_listing; cheap_listing] =
  analyze_salary_by_experience [cheap_listing; midrange_listing].
Proof.
  assert (Hexact : float_exact [midrange_listing; cheap_listing])
    by (unfold float_exact; vm_compute; reflexivity).
  split; [exact Hexact|].
  apply (proj2 (salary_statistics_ignore_order
                  [midrange_listing; cheap_listing] [cheap_listing; midrange_listing]
                  Hexact (perm_swap _ _ _))).
Defined.

(** * Properties of the listing source *)

(** ** The cache *)

Lemma dict_get_set_same {V : Type} (d : list (string * V)) (key : string) (value : V) :
  dict_get (dict_set d key value) key = Some value.
Proof.
  induction d as [|[k v] d IH]; simpl.
  - rewrite String.eqb_refl. reflexivity.
  - destruct (String.eqb k key) eqn:E; simpl; rewrite E; [reflexivity | exact IH].
Qed.

Lemma dict_get_set_other {V : Type} (d : list (string * V)) (key key' : string) (value : V) :
  key' <> key -> dict_get (dict_set d key value) key' = dict_get d key'.
Proof.
  intros N. induction d as [|[k v] d IH]; simpl.
  - destruct (String.eqb_spec key key'); [congruence | reflexivity].
  - destruct (String.eqb_spec k key) as [-> | Nk]; simpl.
    + destruct (String.eqb_spec key key'); [congruence | reflexivity].
    + destruct (String.eqb k key'); [reflexivity | exact IH].
Qed.

Lemma dict_get_del_same {V : Type} (d : list (string * V)) (key : string) :
  dict_get (dict_del d key) key = None.
Proof.
  unfold dict_del. induction d as [|[k v] d IH]; simpl; [reflexivity|].
  destruct (String.eqb k key) eqn:E; simpl; [exact IH | rewrite E; exact IH].
Qed.

Lemma dict_get_del_other {V : Type} (d : list (string * V)) (key key' : string) :
  key' <> key -> dict_get (dict_del d key) key' = dict_get d key'.
Proof.
  intros N. unfold dict_del. induction d as [|[k v] d IH]; simpl; [reflexivity|].
  destruct (String.eqb_spec k key) as [-> | Nk]; simpl.
  - destruct (String.eqb_spec key key'); [congruence | exact IH].
  - destruct (String.eqb k key'); [reflexivity | exact IH].
Qed.

(** X10. The cache round trip: data stored at time [t] is returned by a
    lookup of the same key strictly less than 30 minutes later, the cache
    being left as it is; from 30 minutes on the lookup returns nothing and
    removes the entry. Storing and looking up one key never changes what is
    held under another key, and a lookup only ever returns data stored less
    than 30 minutes before. *)
Theorem cache_round_trip {D : Type} (cache : list (string * (D * Z)))
  (key : string) (data : D) (t now : Z) :
  ((now - t < _cache_ttl)%Z ->
     _get_from_cache now key (_set_cache t key data cache) =
     (Some data, _set_cache t key data cache)) /\
  ((_cache_ttl <= now - t)%Z ->
     fst (_get_from_cache now key (_set_cache t key data cache)) = None /\
     dict_get (snd (_get_from_cache now key (_set_cache t key data cache))) key = None) /\
  (forall key', key' <> key ->
     dict_get (_set_cache t key data cache) key' = dict_get cache key' /\
     dict_get (snd (_get_from_cache now key cache)) key' = dict_get cache key') /\
  (forall found,
     fst (_get_from_cache now key cache) = Some found ->
     exists stored,
       dict_get cache key = Some (found, stored) /\ (now - stored < _cache_ttl)%Z).
Proof.
  unfold _get_from_cache, _set_cache.
  refine (conj _ (conj _ (conj _ _))).
  - intros H. rewrite dict_get_set_same.
    apply Z.ltb_lt in H. rewrite H. reflexivity.
  - intros H. rewrite dict_get_set_same.
    apply Z.ltb_ge in H. rewrite H. simpl. split; [reflexivity|].
    apply dict_get_del_same.
  - intros key' N. split; [apply dict_get_set_other, N|].
    destruct (dict_get cache key) as [[d ts]|]; [|reflexivity].
    destruct (now - ts <? _cache_ttl)%Z; simpl; [reflexivity|].
    apply dict_get_del_other, N.
  - intros found H. destruct (dict_get cache key) as [[d ts]|]; [|discriminate H].
    destruct (now - ts <? _cache_ttl)%Z eqn:E; simpl in H; [|discriminate H].
    injection H as ->. exists ts. split; [reflexivity | apply Z.ltb_lt, E].
Qed.

Lemma cache_round_trip_witness :
  _get_from_cache 1799999999%Z "k" (_set_cache 0%Z "k" 7 []) =
  (Some 7, _set_cache 0%Z "k" 7 []).
Proof.
  apply (proj1 (cache_round_trip [] "k" 7 0%Z 1799999999%Z)). reflexivity.
Defined.

(** ** The cache key *)

Lemma string_compare_trans (a : string) :
  forall b c,
    String.compare a b <> Gt -> String.compare b c <> Gt -> String.compare a c <> Gt.
Proof.
  induction a as [|x a IH]; intros [|y b] [|z c]; simpl; try congruence.
  unfold Ascii.compare.
  destruct (N.compare_spec (N_of_ascii x) (N_of_ascii y)) as [Exy | Lxy | Gxy];
    try congruence;
    destruct (N.compare_spec (N_of_ascii y) (N_of_ascii z)) as [Eyz | Lyz | Gyz];
    try congruence; intros H1 H2.
  - rewrite Exy, Eyz, N.compare_refl. apply (IH b c H1 H2).
  - rewrite Exy, (proj2 (N.compare_lt_iff _ _) Lyz). discriminate.
  - rewrite <- Eyz, (proj2 (N.compare_lt_iff _ _) Lxy). discriminate.
  - rewrite (proj2 (N.compare_lt_iff _ _) (N.lt_trans _ _ _ Lxy Lyz)). discriminate.
Qed.

Lemma string_leb_trans (a b c : string) :
  String.leb a b = true -> String.leb b c = true -> String.leb a c = true.
Proof.
  unfold String.leb. intros H1 H2.
  pose proof (string_compare_trans a b c) as T.
  destruct (String.compare a b); try discriminate H1;
    destruct (String.compare b c); try discriminate H2;
    destruct (String.compare a c); try reflexivity;
    exfalso; apply T; congruence.
Qed.

Lemma insert_item_forall (P : string * pyarg -> Prop) (e : string * pyarg)
  (l : list (string * pyarg)) :
  P e -> Forall P l -> Forall P (insert_item e l).
Proof.
  intros He. induction l as [|e' l IH]; intros Hl; simpl.
  - constructor; [exact He | constructor].
  - inversion Hl as [|? ? He' Hl']. subst. destruct (String.leb (fst e) (fst e')).
    + constructor; [exact He | exact Hl].
    + constructor; [exact He' | apply IH, Hl'].
Qed.

Lemma insert_item_sorted (e : string * pyarg) (l : list (string * pyarg)) :
  StronglySorted key_le l -> StronglySorted key_le (insert_item e l).
Proof.
  induction l as [|e' l IH]; intros Hs; simpl.
  - constructor; constructor.
  - apply StronglySorted_inv in Hs. destruct Hs as [Hs He'].
    destruct (String.leb (fst e) (fst e')) eqn:E.
    + constructor; [constructor; assumption|].
      constructor; [exact E|].
      apply (Forall_impl (key_le e)) in He'; [exact He'|].
      intros z Hz. apply (string_leb_trans _ (fst e')); assumption.
    + constructor; [apply IH, Hs|].
      apply insert_item_forall; [|exact He'].
      destruct (String.leb_total (fst e) (fst e')) as [F | F]; [congruence | exact F].
Qed.

Lemma sorted_items_sorted (kwargs : list (string * pyarg)) :
  StronglySorted key_le (sorted_items kwargs).
Proof.
  induction kwargs as [|e l IH]; simpl; [constructor | apply insert_item_sorted, IH].
Qed.

Lemma insert_item_perm (e : string * pyarg) (l : list (string * pyarg)) :
  Permutation (insert_item e l) (e :: l).
Proof.
  induction l as [|e' l IH]; simpl.
  - apply Permutation_refl.
  - destruct (String.leb (fst e) (fst e')).
    + apply Permutation_refl.
    + apply perm_trans with (e' :: e :: l); [apply perm_skip, IH | apply perm_swap].
Qed.

Lemma sorted_items_perm (kwargs : list (string * pyarg)) :
  Permutation (sorted_items kwargs) kwargs.
Proof.
  induction kwargs as [|e l IH]; simpl.
  - apply perm_nil.
  - apply perm_trans with (e :: sorted_items l);
      [apply insert_item_perm | apply perm_skip, IH].
Qed.

Lemma same_key_same_item (l : list (string * pyarg)) (a b : string * pyarg) :
  NoDup (map fst l) -> In a l -> In b l -> fst a = fst b -> a = b.
Proof.
  induction l as [|e l IH]; simpl; [tauto|].
  intros Hnd Ha Hb E. inversion Hnd as [|? ? Hnotin Hnd']. subst.
  destruct Ha as [-> | Ha], Hb as [-> | Hb].
  - reflexivity.
  - exfalso. apply Hnotin. rewrite E. apply in_map, Hb.
  - exfalso. apply Hnotin. rewrite <- E. apply in_map, Ha.
  - apply IH; assumption.
Qed.

Lemma sorted_unique (l1 : list (string * pyarg)) :
  forall l2,
    NoDup (map fst l1) ->
    StronglySorted key_le l1 -> StronglySorted key_le l2 ->
    Permutation l1 l2 -> l1 = l2.
Proof.
  induction l1 as [|a t1 IH]; intros l2 Hnd S1 S2 P.
  - apply Permutation_nil in P. subst. reflexivity.
  - destruct l2 as [|b t2];
      [apply Permutation_sym, Permutation_nil in P; discriminate P|].
    assert (E : a = b).
    { apply (same_key_same_item (a :: t1)); [exact Hnd | left; reflexivity | |].
      - apply (Permutation_in _ (Permutation_sym P)). left. reflexivity.
      - apply StronglySorted_inv in S1, S2.
        destruct S1 as [_ F1], S2 as [_ F2]. rewrite Forall_forall in F1, F2.
        assert (Hb : In b (a :: t1))
          by (apply (Permutation_in _ (Permutation_sym P)); left; reflexivity).
        assert (Ha : In a (b :: t2)) by (apply (Permutation_in _ P); left; reflexivity).
        destruct Hb as [-> | Hb]; [reflexivity|].
        destruct Ha as [-> | Ha]; [reflexivity|].
        apply String.leb_antisym; [apply (F1 b Hb) | apply (F2 a Ha)]. }
    subst b. f_equal. apply IH.
    + inversion Hnd. assumption.
    + apply StronglySorted_inv in S1. tauto.
    + apply StronglySorted_inv in S2. tauto.
    + apply (Permutation_cons_inv P).
Qed.

(** X11. The cache key does not depend on the order in which the keyword
    arguments are given: it is built from the items sorted by key. *)
Theorem cache_key_ignores_argument_order (text : string) (area : option string)
  (kwargs kwargs' : list (string * pyarg)) :
  NoDup (map fst kwargs) ->
  Permutation kwargs kwargs' ->
  _get_cache_key text area kwargs = _get_cache_key text area kwargs'.
Proof.
  intros Hnd P. unfold _get_cache_key.
  assert (E : sorted_items kwargs = sorted_items kwargs'); [|rewrite E; reflexivity].
  apply sorted_unique.
  - apply (Permutation_NoDup (l := map fst kwargs)); [|exact Hnd].
    apply Permutation_map, Permutation_sym, sorted_items_perm.
  - apply sorted_items_sorted.
  - apply sorted_items_sorted.
  - apply perm_trans with kwargs; [apply sorted_items_perm|].
    apply perm_trans with kwargs'; [exact P | apply Permutation_sym, sorted_items_perm].
Qed.

Lemma cache_key_ignores_argument_order_witness :
  _get_cache_key "python" None [("schedule", ArgNone); ("experience", ArgStr "moreThan6")] =
  _get_cache_key "python" None [("experience", ArgStr "moreThan6"); ("schedule", ArgNone)].
Proof.
  apply cache_key_ignores_argument_order.
  - repeat constructor; simpl; intuition discriminate.
  - apply perm_swap.
Defined.

(** ** Searching through the cache *)

Lemma append_length (a b : string) :
  String.length (String.append a b) = String.length a + String.length b.
Proof. induction a as [|c a IH]; simpl; [reflexivity | rewrite IH; reflexivity]. Qed.

Lemma append_inj_left (s x y : string) :
  String.append s x = String.append s y -> x = y.
Proof.
  induction s as [|c s IH]; simpl; intros E; [exact E|].
  injection E as E. apply IH, E.
Qed.

Lemma append_inj_right (t : string) (x : string) :
  forall y, String.append x t = String.append y t -> x = y.
Proof.
  induction x as [|c x IH]; intros [|d y] E; simpl in E.
  - reflexivity.
  - exfalso. apply (f_equal String.length) in E. simpl in E.
    rewrite append_length in E. lia.
  - exfalso. apply (f_equal String.length) in E. simpl in E.
    rewrite append_length in E. lia.
  - injection E as -> E. f_equal. apply IH, E.
Qed.

Lemma concat_cons2 (sep x : string) (y : string) (l : list string) :
  String.concat sep (x :: y :: l) =
  String.append x (String.append sep (String.concat sep (y :: l))).
Proof. reflexivity. Qed.

(** For a fixed text and fixed filters the key tells two named areas apart. *)
Lemma cache_key_area_injective (text : string) (a a' : string)
  (kwargs : list (string * pyarg)) :
  _get_cache_key text (Some a) kwargs = _get_cache_key text (Some a') kwargs ->
  a = a'.
Proof.
  unfold _get_cache_key. cbn [app py_str arg_of_str].
  set (more := map _ (sorted_items kwargs)).
  rewrite !concat_cons2. intros E. apply append_inj_left, append_inj_left in E.
  destruct more as [|m more].
  - exact E.
  - rewrite !concat_cons2 in E. apply append_inj_right in E. exact E.
Qed.

Lemma get_or_cases {V : Type} (d : list (string * V)) (key : string) (default : V) :
  get_or d key default = default \/ In (get_or d key default) (map snd d).
Proof.
  unfold get_or. induction d as [|[k v] d IH]; simpl.
  - left. reflexivity.
  - destruct (String.eqb k key).
    + right. left. reflexivity.
    + destruct IH as [IH | IH]; [left; exact IH | right; right; exact IH].
Qed.

(** Every area id is a number. *)
Lemma get_area_id_isdigit (city_name : string) : isdigit (get_area_id city_name) = true.
Proof.
  unfold get_area_id. destruct (get_or_cases areas (strip (lower city_name)) "1") as [E | Hin].
  - rewrite E. reflexivity.
  - assert (F : forallb isdigit (map snd areas) = true) by (vm_compute; reflexivity).
    rewrite forallb_forall in F. apply F, Hin.
Qed.

Lemma resolved_area_cases (area : option string) :
  resolved_area area = area \/
  exists name,
    area = Some name /\ name <> "" /\ isdigit name = false /\
    resolved_area area = Some (get_area_id name) /\ get_area_id name <> name.
Proof.
  destruct area as [[|c s]|]; try (left; reflexivity).
  unfold resolved_area.
  destruct (isdigit (String c s)) eqn:E; cbn [negb]; [left; reflexivity|].
  right. exists (String c s). repeat split; try reflexivity; try exact E;
    try discriminate.
  intros F. pose proof (get_area_id_isdigit (String c s)) as G.
  rewrite F in G. congruence.
Qed.

(** A fresh, non-empty entry under the key of a first-page search answers the
    search: no request is made and the cache is left as it is. *)
Lemma search_served_from_cache (http : list (string * pyarg) -> http_outcome)
  (now_lookup now_store : Z) (q : search_args)
  (cache : list (string * (page_data * Z))) (data : page_data) (stored : Z) :
  cached_search q ->
  dict_get cache (search_key q (q_area q)) = Some (data, stored) ->
  (now_lookup - stored < _cache_ttl)%Z ->
  truthy_data data = true ->
  search_vacancies http now_lookup now_store q cache =
  mk_result cache None (Returned data).
Proof.
  intros [Hu Hp] Hget Hfresh Ht. unfold search_vacancies, _get_from_cache.
  rewrite Hu, Hp, Hget. apply Z.ltb_lt in Hfresh. rewrite Hfresh. simpl.
  rewrite Ht. reflexivity.
Qed.

(** A first-page search on a cache without an entry under its key makes the
    request. *)
Lemma search_cold (http : list (string * pyarg) -> http_outcome)
  (now_lookup now_store : Z) (q : search_args)
  (cache : list (string * (page_data * Z))) :
  dict_get cache (search_key q (q_area q)) = None ->
  search_vacancies http now_lookup now_store q cache =
  request_page http now_store q cache.
Proof.
  intros Hget. unfold search_vacancies, _get_from_cache. rewrite Hget.
  destruct (q_use_cache q && (q_page q =? 0)%Z); reflexivity.
Qed.

Lemma request_page_ok (http : list (string * pyarg) -> http_outcome)
  (now_store : Z) (q : search_args)
  (cache : list (string * (page_data * Z))) (data : page_data) :
  cached_search q ->
  http (search_params q (resolved_area (q_area q))) = Responded 200 data ->
  request_page http now_store q cache =
  mk_result
    (_set_cache now_store (search_key q (resolved_area (q_area q))) data cache)
    (Some (search_params q (resolved_area (q_area q)))) (Returned data).
Proof.
  intros [Hu Hp] Hhttp. unfold request_page. rewrite Hhttp, Hu, Hp. reflexivity.
Qed.

(** X12. A repeated search is served from the cache when the area is absent
    or numeric: after a first-page search that got a 200 response with a
    non-empty body on a cache without an entry for it, the same search less
    than 30 minutes later returns that body without any request, whatever the
    network would answer. *)
Theorem repeated_search_is_served_from_cache
  (http http' : list (string * pyarg) -> http_outcome)
  (t1 t2 t3 t4 : Z) (q : search_args)
  (cache : list (string * (page_data * Z))) (data : page_data) :
  cached_search q ->
  resolved_area (q_area q) = q_area q ->
  dict_get cache (search_key q (q_area q)) = None ->
  http (search_params q (q_area q)) = Responded 200 data ->
  truthy_data data = true ->
  (t3 - t2 < _cache_ttl)%Z ->
  let first := search_vacancies http t1 t2 q cache in
  r_outcome first = Returned data /\
  r_request first = Some (search_params q (q_area q)) /\
  search_vacancies http' t3 t4 q (r_cache first) =
    mk_result (r_cache first) None (Returned data).
Proof.
  intros Hq Hres Hcold Hhttp Ht Hfresh first. unfold first.
  rewrite (search_cold _ _ _ _ _ Hcold).
  rewrite (request_page_ok _ _ _ _ data Hq) by (rewrite Hres; exact Hhttp).
  rewrite Hres. cbn [r_outcome r_request r_cache].
  refine (conj eq_refl (conj eq_refl _)).
  apply (search_served_from_cache _ _ _ _ _ data t2 Hq); [|exact Hfresh | exact Ht].
  apply dict_get_set_same.
Qed.

Lemma repeated_search_is_served_from_cache_witness :
  search_vacancies (fun _ => TimedOut) 60000000 61000000
    (mk_search "python" (Some "1") None None None None None 0 100 true)
    (r_cache
       (search_vacancies (fun _ => Responded 200 one_listing_page) 0 1000000
          (mk_search "python" (Some "1") None None None None None 0 100 true) [])) =
  mk_result
    (r_cache
       (search_vacancies (fun _ => Responded 200 one_listing_page) 0 1000000
          (mk_search "python" (Some "1") None None None None None 0 100 true) []))
    None (Returned one_listing_page).
Proof.
  apply (repeated_search_is_served_from_cache
           (fun _ => Responded 200 one_listing_page) (fun _ => TimedOut)
           0 1000000 60000000 61000000
           (mk_search "python" (Some "1") None None None None None 0 100 true)
           [] one_listing_page).
  - split; reflexivity.
  - reflexivity.
  - reflexivity.
  - reflexivity.
  - reflexivity.
  - reflexivity.
Defined.

(** X13. For an area given by name, in ASCII and Cyrillic letters, the cache
    never answers the search that filled it: the entry is stored under the key of the resolved area id, the
    lookup uses the key of the name, and the two differ. After a first-page
    search for a named area that got a 200 response on a cache without an
    entry for it, the entry is held under the id's key, nothing is held under
    the name's key, and the same search repeated at any time makes the
    request again. *)
Theorem named_area_search_misses_its_own_entry
  (http http' : list (string * pyarg) -> http_outcome)
  (t1 t2 t3 t4 : Z) (q : search_args) (name : string)
  (cache : list (string * (page_data * Z))) (data : page_data) :
  cached_search q ->
  q_area q = Some name ->
  plain_text name = true ->
  name <> "" ->
  isdigit name = false ->
  dict_get cache (search_key q (Some name)) = None ->
  http (search_params q (Some (get_area_id name))) = Responded 200 data ->
  let first := search_vacancies http t1 t2 q cache in
  r_outcome first = Returned data /\
  dict_get (r_cache first) (search_key q (Some (get_area_id name))) = Some (data, t2) /\
  dict_get (r_cache first) (search_key q (Some name)) = None /\
  r_request (search_vacancies http' t3 t4 q (r_cache first)) =
    Some (search_params q (Some (get_area_id name))).
Proof.
  intros Hq Ha _ Hne Hd Hcold Hhttp first.
  assert (Hres : resolved_area (q_area q) = Some (get_area_id name)).
  { rewrite Ha. destruct name as [|c s]; [contradiction|].
    unfold resolved_area. rewrite Hd. reflexivity. }
  assert (Hkeys : search_key q (Some name) <> search_key q (Some (get_area_id name))).
  { intros F. apply cache_key_area_injective in F.
    pose proof (get_area_id_isdigit name) as G. rewrite <- F in G. congruence. }
  assert (Efirst : first =
            mk_result
              (_set_cache t2 (search_key q (Some (get_area_id name))) data cache)
              (Some (search_params q (Some (get_area_id name)))) (Returned data)).
  { unfold first. rewrite search_cold by (rewrite Ha; exact Hcold).
    rewrite (request_page_ok _ _ _ _ data Hq) by (rewrite Hres; exact Hhttp).
    rewrite Hres. reflexivity. }
  rewrite Efirst. cbn [r_outcome r_cache].
  assert (Hmiss : dict_get
            (_set_cache t2 (search_key q (Some (get_area_id name))) data cache)
            (search_key q (Some name)) = None).
  { unfold _set_cache. rewrite dict_get_set_other by exact Hkeys. exact Hcold. }
  refine (conj eq_refl (conj _ (conj Hmiss _))).
  - apply dict_get_set_same.
  - rewrite search_cold by (rewrite Ha; exact Hmiss).
    unfold request_page. rewrite Hres.
    destruct (http' (search_params q (Some (get_area_id name)))) as [status d| |e];
      try reflexivity.
    destruct (status =? 200)%Z; [reflexivity|].
    destruct (status =? 429)%Z; [reflexivity|].
    destruct (500 <=? status)%Z; reflexivity.
Qed.

Lemma named_area_search_misses_its_own_entry_witness :
  let first :=
    search_vacancies (fun _ => Responded 200 one_listing_page) 0 1000000
      moscow_search [] in
  r_outcome first = Returned one_listing_page /\
  dict_get (r_cache first) (search_key moscow_search (Some (get_area_id "Москва"))) =
    Some (one_listing_page, 1000000%Z) /\
  dict_get (r_cache first) (search_key moscow_search (Some "Москва")) = None /\
  r_request (search_vacancies (fun _ => TimedOut) 2000000 3000000 moscow_search
               (r_cache first)) =
    Some (search_params moscow_search (Some (get_area_id "Москва"))).
Proof.
  apply (named_area_search_misses_its_own_entry
           (fun _ => Responded 200 one_listing_page) (fun _ => TimedOut)
           0 1000000 2000000 3000000 moscow_search "Москва" [] one_listing_page).
  - split; reflexivity.
  - reflexivity.
  - reflexivity.
  - discriminate.
  - reflexivity.
  - reflexivity.
  - reflexivity.
Defined.

Lemma dict_get_del_some {V : Type} (d : list (string * V)) (key k : string) (e : V) :
  dict_get (dict_del d key) k = Some e -> dict_get d k = Some e.
Proof.
  destruct (String.eqb_spec k key) as [-> | N].
  - rewrite dict_get_del_same. discriminate.
  - rewrite dict_get_del_other by exact N. tauto.
Qed.

Lemma lookup_keeps_or_removes {D : Type} (now : Z) (key : string)
  (cache : list (string * (D * Z))) (k : string) (e : D * Z) :
  dict_get (snd (_get_from_cache now key cache)) k = Some e ->
  dict_get cache k = Some e.
Proof.
  unfold _get_from_cache. destruct (dict_get cache key) as [[d ts]|]; [|tauto].
  destruct (now - ts <? _cache_ttl)%Z; simpl; [tauto | apply dict_get_del_some].
Qed.

Lemma request_page_cache (http : list (string * pyarg) -> http_outcome)
  (now_store : Z) (q : search_args)
  (cache : list (string * (page_data * Z))) (k : string) (e : page_data * Z) :
  dict_get (r_cache (request_page http now_store q cache)) k = Some e ->
  dict_get cache k = Some e \/
  (cached_search q /\
   k = search_key q (resolved_area (q_area q)) /\
   snd e = now_store /\
   r_outcome (request_page http now_store q cache) = Returned (fst e) /\
   http (search_params q (resolved_area (q_area q))) = Responded 200 (fst e)).
Proof.
  unfold request_page.
  destruct (http (search_params q (resolved_area (q_area q)))) as [status d| |err] eqn:Hh;
    try (cbn [r_cache]; tauto).
  destruct (Z.eqb_spec status 200) as [-> | N200].
  - cbn [r_cache r_outcome].
    destruct (q_use_cache q) eqn:Hu; [|simpl; tauto].
    destruct (Z.eqb_spec (q_page q) 0) as [Hp | Np]; [|simpl; tauto].
    cbn [andb]. unfold _set_cache.
    destruct (String.eqb_spec k (search_key q (resolved_area (q_area q)))) as [-> | Nk].
    + rewrite dict_get_set_same. intros E. injection E as <-. right.
      repeat split; try reflexivity; assumption.
    + rewrite dict_get_set_other by exact Nk. tauto.
  - destruct (status =? 429)%Z; [cbn [r_cache]; tauto|].
    destruct (500 <=? status)%Z; cbn [r_cache]; tauto.
Qed.

Lemma request_page_raised (http : list (string * pyarg) -> http_outcome)
  (now_store : Z) (q : search_args)
  (cache : list (string * (page_data * Z))) (message : string) :
  r_outcome (request_page http now_store q cache) = Raised message ->
  r_cache (request_page http now_store q cache) = cache.
Proof.
  unfold request_page.
  destruct (http (search_params q (resolved_area (q_area q)))) as [status d| |err];
    try reflexivity.
  destruct (status =? 200)%Z; [discriminate|].
  destruct (status =? 429)%Z; [reflexivity|].
  destruct (500 <=? status)%Z; reflexivity.
Qed.

(** X14. The cache only ever gains the body of a 200 response to a
    first-page search made with the cache on, stored under the key of the
    resolved area at the time of storing: every entry held after a search
    was held before it or is that one. A search that raises adds nothing,
    and a search for another page or with the cache off leaves the cache
    untouched. *)
Theorem search_caches_only_first_page_successes
  (http : list (string * pyarg) -> http_outcome) (t1 t2 : Z) (q : search_args)
  (cache : list (string * (page_data * Z))) :
  (forall k e,
     dict_get (r_cache (search_vacancies http t1 t2 q cache)) k = Some e ->
     dict_get cache k = Some e \/
     (cached_search q /\
      k = search_key q (resolved_area (q_area q)) /\
      snd e = t2 /\
      r_outcome (search_vacancies http t1 t2 q cache) = Returned (fst e) /\
      http (search_params q (resolved_area (q_area q))) = Responded 200 (fst e))) /\
  (forall message k e,
     r_outcome (search_vacancies http t1 t2 q cache) = Raised message ->
     dict_get (r_cache (search_vacancies http t1 t2 q cache)) k = Some e ->
     dict_get cache k = Some e) /\
  (q_use_cache q = false \/ q_page q <> 0%Z ->
   r_cache (search_vacancies http t1 t2 q cache) = cache).
Proof.
  unfold search_vacancies.
  destruct (q_use_cache q && (q_page q =? 0)%Z) eqn:Hc.
  - destruct (_get_from_cache t1 (search_key q (q_area q)) cache) as [cached c1] eqn:Hl.
    assert (Hsub : forall k e, dict_get c1 k = Some e -> dict_get cache k = Some e).
    { intros k e H. apply (lookup_keeps_or_removes t1 (search_key q (q_area q))).
      rewrite Hl. exact H. }
    assert (Hreq : forall k e,
              dict_get (r_cache (request_page http t2 q c1)) k = Some e ->
              dict_get cache k = Some e \/
              (cached_search q /\
               k = search_key q (resolved_area (q_area q)) /\
               snd e = t2 /\
               r_outcome (request_page http t2 q c1) = Returned (fst e) /\
               http (search_params q (resolved_area (q_area q))) = Responded 200 (fst e))).
    { intros k e H. apply request_page_cache in H.
      destruct H as [H | H]; [left; apply Hsub, H | right; exact H]. }
    assert (Hraise : forall message k e,
              r_outcome (request_page http t2 q c1) = Raised message ->
              dict_get (r_cache (request_page http t2 q c1)) k = Some e ->
              dict_get cache k = Some e).
    { intros message k e Hr H. rewrite (request_page_raised _ _ _ _ _ Hr) in H.
      apply Hsub, H. }
    assert (Hoff : q_use_cache q = false \/ q_page q <> 0%Z -> False).
    { apply andb_true_iff in Hc. destruct Hc as [Hu Hp]. apply Z.eqb_eq in Hp.
      intros [F | F]; congruence. }
    destruct cached as [data|]; [destruct (truthy_data data)|].
    + cbn [r_cache r_outcome]. refine (conj _ (conj _ _)).
      * intros k e H. left. apply Hsub, H.
      * intros message k e F. discriminate F.
      * intros F. destruct (Hoff F).
    + refine (conj Hreq (conj Hraise _)). intros F. destruct (Hoff F).
    + refine (conj Hreq (conj Hraise _)). intros F. destruct (Hoff F).
  - refine (conj _ (conj _ _)).
    + intros k e H. apply request_page_cache in H. exact H.
    + intros message k e Hr H. rewrite (request_page_raised _ _ _ _ _ Hr) in H. exact H.
    + intros _. unfold request_page. rewrite Hc.
      destruct (http (search_params q (resolved_area (q_area q)))) as [status d| |err];
        try reflexivity.
      destruct (status =? 200)%Z; [reflexivity|].
      destruct (status =? 429)%Z; [reflexivity|].
      destruct (500 <=? status)%Z; reflexivity.
Qed.

Lemma search_caches_only_first_page_successes_witness :
  r_cache (search_vacancies (fun _ => Responded 429 one_listing_page) 0 1000000
             (mk_search "python" None None None None None None 3 100 true) []) = [].
Proof.
  destruct (search_caches_only_first_page_successes
              (fun _ => Responded 429 one_listing_page) 0 1000000
              (mk_search "python" None None None None None None 3 100 true) [])
    as (_ & _ & H).
  apply H. right. discriminate.
Defined.

(** ** The request *)

Lemma dict_get_add_str_other (name : string) (value : option string)
  (params : list (string * pyarg)) (k : string) :
  k <> name -> dict_get (add_str name value params) k = dict_get params k.
Proof.
  intros N. unfold add_str. destruct value as [[|c s]|]; try reflexivity.
  apply dict_get_set_other, N.
Qed.

Lemma dict_get_add_int_other (name : string) (value : option Z)
  (params : list (string * pyarg)) (k : string) :
  k <> name -> dict_get (add_int name value params) k = dict_get params k.
Proof.
  intros N. unfold add_int. destruct (truthy_int value); [|reflexivity].
  apply dict_get_set_other, N.
Qed.

Lemma dict_get_add_int_same (name : string) (value : option Z)
  (params : list (string * pyarg)) :
  dict_get params name = None ->
  dict_get (add_int name value params) name = option_map ArgInt (truthy_int value).
Proof.
  intros H. unfold add_int. destruct (truthy_int value); simpl; [|exact H].
  apply dict_get_set_same.
Qed.

Lemma dict_get_add_str_same (name : string) (value : option string)
  (params : list (string * pyarg)) :
  dict_get params name = None ->
  dict_get (add_str name value params) name =
  match value with
  | Some (String c s) => Some (ArgStr (String c s))
  | _ => None
  end.
Proof.
  intros H. unfold add_str. destruct value as [[|c s]|]; try exact H.
  apply dict_get_set_same.
Qed.

Ltac skip_params :=
  repeat first
    [ rewrite dict_get_add_str_other by discriminate
    | rewrite dict_get_add_int_other by discriminate ].

(** X15. For a search whose area, if any, is written in ASCII and Cyrillic
    letters: the request always carries the text, the page and the page
    size; the area it carries is always a numeric id (a name is resolved, an
    unknown name to "1", Moscow), and no area is sent when none or an empty
    one is given; a salary filter is sent exactly when it is given and not
    zero. *)
Theorem request_parameters (q : search_args) :
  plain_area (q_area q) = true ->
  let params := search_params q (resolved_area (q_area q)) in
  dict_get params "text" = Some (ArgStr (q_text q)) /\
  dict_get params "page" = Some (ArgInt (q_page q)) /\
  dict_get params "per_page" = Some (ArgInt (q_per_page q)) /\
  (forall v, dict_get params "area" = Some v ->
     exists id, v = ArgStr id /\ isdigit id = true) /\
  (dict_get params "area" = None <-> q_area q = None \/ q_area q = Some "") /\
  (forall name,
     q_area q = Some name -> name <> "" -> isdigit name = false ->
     dict_get areas (strip (lower name)) = None ->
     dict_get params "area" = Some (ArgStr "1")) /\
  dict_get params "salary_from" = option_map ArgInt (truthy_int (q_salary_from q)) /\
  dict_get params "salary_to" = option_map ArgInt (truthy_int (q_salary_to q)).
Proof.
  intros _ params. unfold params, search_params.
  assert (Harea :
    dict_get
      (add_str "schedule" (q_schedule q)
         (add_str "employment" (q_employment q)
            (add_str "experience" (q_experience q)
               (add_int "salary_to" (q_salary_to q)
                  (add_int "salary_from" (q_salary_from q)
                     (add_str "area" (resolved_area (q_area q))
                        [("text", ArgStr (q_text q)); ("page", ArgInt (q_page q));
                         ("per_page", ArgInt (q_per_page q))])))))) "area" =
    match resolved_area (q_area q) with
    | Some (String c s) => Some (ArgStr (String c s))
    | _ => None
    end).
  { skip_params. apply dict_get_add_str_same. reflexivity. }
  refine (conj _ (conj _ (conj _ (conj _ (conj _ (conj _ (conj _ _))))))).
  - skip_params. reflexivity.
  - skip_params. reflexivity.
  - skip_params. reflexivity.
  - intros v. rewrite Harea.
    destruct (resolved_area_cases (q_area q)) as [E | (name & Ea & Hne & Hd & E & _)]; rewrite E.
    + destruct (q_area q) as [[|c s]|] eqn:Eq; try discriminate.
      intros H. injection H as <-. exists (String c s). split; [reflexivity|].
      unfold resolved_area in E. destruct (isdigit (String c s)) eqn:D; [reflexivity|].
      simpl in E. injection E as E. pose proof (get_area_id_isdigit (String c s)) as G.
      rewrite E in G. congruence.
    + pose proof (get_area_id_isdigit name) as G.
      destruct (get_area_id name) as [|c s]; [discriminate G|].
      intros H. injection H as <-. exists (String c s). split; [reflexivity | exact G].
  - rewrite Harea.
    destruct (resolved_area_cases (q_area q)) as [E | (name & Ea & Hne & Hd & E & _)]; rewrite E.
    + destruct (q_area q) as [[|c s]|]; split; try tauto; try discriminate.
      intros [F | F]; discriminate F.
    + pose proof (get_area_id_isdigit name) as G.
      destruct (get_area_id name) as [|c s]; [discriminate G|].
      split; [discriminate|]. rewrite Ea. intros [F | F]; [discriminate F|].
      injection F as ->. contradiction.
  - intros name Ea Hne Hd Hunknown. rewrite Harea, Ea.
    destruct name as [|c s]; [contradiction|].
    unfold resolved_area. rewrite Hd. cbn [negb].
    unfold get_area_id, get_or. rewrite Hunknown. reflexivity.
  - skip_params. apply dict_get_add_int_same.
    rewrite dict_get_add_str_other by discriminate. reflexivity.
  - skip_params. apply dict_get_add_int_same.
    rewrite dict_get_add_int_other, dict_get_add_str_other by discriminate. reflexivity.
Qed.

Lemma request_parameters_witness :
  dict_get (search_params moscow_search (resolved_area (q_area moscow_search))) "area"
  = Some (ArgStr "1") /\
  dict_get
    (search_params
       (mk_search "python" (Some "Atlantis") (Some 0%Z) None None None None 0 100 true)
       (resolved_area (Some "Atlantis"))) "area" = Some (ArgStr "1").
Proof.
  split.
  - reflexivity.
  - destruct (request_parameters
                (mk_search "python" (Some "Atlantis") (Some 0%Z) None None None None
                   0 100 true) eq_refl)
      as (_ & _ & _ & _ & _ & H & _).
    apply (H "Atlantis"); [reflexivity | discriminate | reflexivity | reflexivity].
Defined.

(** ** Collecting pages *)

Lemma flat_map_seq_shift {A : Type} (f : nat -> list A) (k : nat) :
  flat_map f (seq 1 k) = flat_map (fun i => f (S i)) (seq 0 k).
Proof.
  rewrite <- seq_shift, flat_map_concat_map, map_map, <- flat_map_concat_map.
  reflexivity.
Qed.

Lemma collect_pages_spec (search : Z -> outcome page_data) (remaining : nat) :
  forall page all_vacancies,
  exists k,
    k <= remaining /\
    collect_pages search remaining page all_vacancies =
      all_vacancies
      ++ flat_map (fun i => page_items search (page + Z.of_nat i)) (seq 0 k) /\
    (forall i, i < k -> page_items search (page + Z.of_nat i) <> []) /\
    (forall i, S i < k ->
       (page + Z.of_nat i < declared_pages search (page + Z.of_nat i) - 1)%Z) /\
    (k = remaining \/
     page_items search (page + Z.of_nat k) = [] \/
     (0 < k /\
      (declared_pages search (page + Z.of_nat (k - 1)) - 1
       <= page + Z.of_nat (k - 1))%Z)).
Proof.
  induction remaining as [|n IH]; intros page all.
  - exists 0. simpl. rewrite app_nil_r. repeat split; try lia.
  - assert (Stop : page_items search page = [] ->
              collect_pages search (S n) page all = all ->
              exists k,
                k <= S n /\
                collect_pages search (S n) page all =
                  all ++ flat_map (fun i => page_items search (page + Z.of_nat i)) (seq 0 k) /\
                (forall i, i < k -> page_items search (page + Z.of_nat i) <> []) /\
                (forall i, S i < k ->
                   (page + Z.of_nat i
                    < declared_pages search (page + Z.of_nat i) - 1)%Z) /\
                (k = S n \/
                 page_items search (page + Z.of_nat k) = [] \/
                 (0 < k /\
                  (declared_pages search (page + Z.of_nat (k - 1)) - 1
                   <= page + Z.of_nat (k - 1))%Z))).
    { intros Hempty Hres. exists 0. rewrite Hres. simpl. rewrite app_nil_r, Z.add_0_r.
      repeat split; try lia. right. left. exact Hempty. }
    destruct (search page) as [result|message] eqn:Hs.
    + destruct (d_items result) as [[|x items]|] eqn:Hi.
      * apply Stop; [unfold page_items; rewrite Hs, Hi; reflexivity|].
        cbn [collect_pages]. rewrite Hs, Hi. reflexivity.
      * assert (Hitems : page_items search page = x :: items)
          by (unfold page_items; rewrite Hs, Hi; reflexivity).
        assert (Hdecl : declared_pages search page =
                        match d_pages result with Some m => m | None => 1%Z end)
          by (unfold declared_pages; rewrite Hs; reflexivity).
        cbn [collect_pages]. rewrite Hs, Hi.
        destruct (Z.leb_spec
                    (match d_pages result with Some m => m | None => 1%Z end - 1) page)
          as [Hlast | Hmore].
        -- exists 1. simpl. rewrite Z.add_0_r, app_nil_r, Hitems.
           split; [lia|]. split; [reflexivity|].
           split; [intros i Hlt; replace i with 0 by lia; simpl;
                   rewrite Z.add_0_r, Hitems; discriminate|].
           split; [intros i Hlt; lia|].
           right. right. split; [lia|]. rewrite ?Z.add_0_r, Hdecl. exact Hlast.
        -- destruct (IH (page + 1)%Z (all ++ x :: items))
             as (k & Hk & Hres & Hne & Hcont & Hstop).
           exists (S k). split; [lia|]. split.
           { rewrite Hres. cbn [seq flat_map]. rewrite flat_map_seq_shift.
             rewrite Z.add_0_r, Hitems, <- app_assoc. f_equal. f_equal.
             apply flat_map_ext. intros i. f_equal. lia. }
           split.
           { intros [|i] Hlt.
             - rewrite Z.add_0_r, Hitems. discriminate.
             - replace (page + Z.of_nat (S i))%Z with (page + 1 + Z.of_nat i)%Z by lia.
               apply Hne. lia. }
           split.
           { intros [|i] Hlt.
             - rewrite Z.add_0_r, Hdecl. exact Hmore.
             - replace (page + Z.of_nat (S i))%Z with (page + 1 + Z.of_nat i)%Z by lia.
               apply Hcont. lia. }
           destruct Hstop as [-> | [Hstop | [Hpos Hstop]]].
           ++ left. reflexivity.
           ++ right. left.
              replace (page + Z.of_nat (S k))%Z with (page + 1 + Z.of_nat k)%Z by lia.
              exact Hstop.
           ++ right. right. split; [lia|].
              replace (page + Z.of_nat (S k - 1))%Z
                with (page + 1 + Z.of_nat (k - 1))%Z by lia.
              exact Hstop.
      * apply Stop; [unfold page_items; rewrite Hs, Hi; reflexivity|].
        cbn [collect_pages]. rewrite Hs, Hi. reflexivity.
    + apply Stop; [unfold page_items; rewrite Hs; reflexivity|].
      cbn [collect_pages]. rewrite Hs. reflexivity.
Qed.

(** X16. The collected listings are those of the pages 0, 1, ... up to some
    page, in order, and never of more than [max_pages] pages: every page taken
    returned listings, every page but the last declared more pages to come,
    and collecting stopped because [max_pages] pages were taken, or the next
    search raised or returned no listings, or the last page taken was the
    last one declared. A failure is not raised: what was collected before it
    is returned. *)
Theorem pages_are_collected_in_order (search : Z -> outcome page_data) (max_pages : Z) :
  exists k,
    k <= Z.to_nat max_pages /\
    get_all_vacancies search max_pages = first_pages search k /\
    (forall i, i < k -> page_items search (Z.of_nat i) <> []) /\
    (forall i, S i < k ->
       (Z.of_nat i < declared_pages search (Z.of_nat i) - 1)%Z) /\
    (k = Z.to_nat max_pages \/
     page_items search (Z.of_nat k) = [] \/
     (0 < k /\
      (declared_pages search (Z.of_nat (k - 1)) - 1 <= Z.of_nat (k - 1))%Z)).
Proof.
  destruct (collect_pages_spec search (Z.to_nat max_pages) 0%Z [])
    as (k & Hk & Hres & Hne & Hcont & Hstop).
  exists k. unfold get_all_vacancies, first_pages.
  split; [exact Hk|]. split; [exact Hres|].
  split; [intros i Hi; apply (Hne i Hi)|].
  split; [intros i Hi; apply (Hcont i Hi)|].
  exact Hstop.
Qed.

Lemma first_pages_length (search : Z -> outcome page_data) (per_page k : nat) :
  (forall page, List.length (page_items search page) <= per_page) ->
  List.length (first_pages search k) <= k * per_page.
Proof.
  intros Hb. unfold first_pages. generalize 0 as start.
  induction k as [|k IH]; intros start; simpl; [lia|].
  rewrite length_app. specialize (IH (S start)).
  specialize (Hb (Z.of_nat start)). lia.
Qed.

Lemma collect_pages_extends (search : Z -> outcome page_data) (n : nat) :
  forall n' page all_vacancies,
    n <= n' ->
    exists more,
      collect_pages search n' page all_vacancies =
      collect_pages search n page all_vacancies ++ more.
Proof.
  induction n as [|n IH]; intros n' page all Hle.
  - destruct (collect_pages_spec search n' page all) as (k & _ & Hres & _).
    eexists. simpl. exact Hres.
  - destruct n' as [|n']; [lia|]. cbn [collect_pages].
    destruct (search page) as [result|message]; [|exists []; rewrite app_nil_r; reflexivity].
    destruct (d_items result) as [[|x items]|];
      try (exists []; rewrite app_nil_r; reflexivity).
    destruct (match d_pages result with Some m => m | None => 1%Z end - 1 <=? page)%Z;
      [exists []; rewrite app_nil_r; reflexivity|].
    apply IH. lia.
Qed.

Lemma pages_bound_helper (search : Z -> outcome page_data) (max_pages : Z) :
  exists k,
    k <= Z.to_nat max_pages /\
    get_all_vacancies search max_pages = first_pages search k.
Proof.
  destruct (collect_pages_spec search (Z.to_nat max_pages) 0%Z [])
    as (k & Hk & Hres & _).
  exists k. split; [exact Hk | exact Hres].
Qed.

(** X17. The collection is bounded and grows with [max_pages]: when no page
    holds more than [per_page] listings, at most [max_pages * per_page]
    listings are collected; and what is collected with a larger [max_pages]
    starts with what is collected with a smaller one. *)
Theorem collection_is_bounded_and_monotone (search : Z -> outcome page_data) :
  (forall max_pages per_page,
     (forall page, List.length (page_items search page) <= per_page) ->
     List.length (get_all_vacancies search max_pages) <= Z.to_nat max_pages * per_page) /\
  (forall max_pages max_pages',
     (max_pages <= max_pages')%Z ->
     exists more,
       get_all_vacancies search max_pages' = get_all_vacancies search max_pages ++ more).
Proof.
  split.
  - intros max_pages per_page Hb.
    destruct (pages_bound_helper search max_pages) as (k & Hk & Hres).
    rewrite Hres.
    etransitivity; [apply (first_pages_length search per_page k Hb)|].
    apply Nat.mul_le_mono_r, Hk.
  - intros m m' Hle. unfold get_all_vacancies.
    apply collect_pages_extends. lia.
Qed.


